(** * Taxi-trip analytics over an embedded SQL engine (src/duck_db.py)

    The program is a Python driver that issues a fixed battery of SQL
    queries against a DuckDB connection and post-processes the fetched
    tuples into dictionaries.  This development embeds

    - the table [yellow_taxi] as a list of rows in scan order, every
      column nullable ([None] is SQL NULL);
    - the SQL text of each query, clause by clause, over that list;
    - the Python post-processing, in an error monad whose failures are
      Python exceptions.

    In the queries DOUBLE columns are idealised as exact rationals ([Qc],
    canonical fractions with Leibniz equality); the evaluator of the
    engine is written for any kind of number and is also run on
    double-precision floats.  TIMESTAMP values are microseconds since
    the Unix epoch. *)

From stdpp Require Import base numbers list sorting gmap strings pretty.
From Stdlib Require Import QArith Qcanon Qround Floats.

Open Scope Z_scope.

(** ** SQL scalars *)

(** The table created by [read_csv_auto] from the yellow-taxi CSV. *)
Record row := {
  tpep_pickup_datetime : option Z;
  tpep_dropoff_datetime : option Z;
  trip_distance : option Qc;
  pickup_longitude : option Qc;
  pickup_latitude : option Qc;
  dropoff_longitude : option Qc;
  dropoff_latitude : option Qc;
  payment_type : option Z;
  fare_amount : option Qc;
  tip_amount : option Qc;
  total_amount : option Qc
}.

Definition table := list row.

Definition Qc_of_nat (n : nat) : Qc := Qc_of_Z (Z.of_nat n).

Definition Qc_eqb (x y : Qc) : bool := Qeq_bool (this x) (this y).
Definition Qc_ltb (x y : Qc) : bool := negb (Qle_bool (this y) (this x)).

(** [NULLIF(a, b)]: NULL when [a = b], else [a]. *)
Definition NULLIF (a : option Qc) (b : Qc) : option Qc :=
  match a with
  | Some x => if Qc_eqb x b then None else Some x
  | None => None
  end.

(** [a / b]; NULL operands give NULL, and so does a zero divisor. *)
Definition sql_div (a b : option Qc) : option Qc :=
  match a, b with
  | Some x, Some y => if Qc_eqb y (Qc_of_Z 0) then None else Some (x / y)%Qc
  | _, _ => None
  end.

Definition sql_mul (a b : option Qc) : option Qc :=
  match a, b with
  | Some x, Some y => Some (x * y)%Qc
  | _, _ => None
  end.

(** Comparisons are three-valued: NULL when an operand is NULL. *)
Definition sql_gt (a b : option Qc) : option bool :=
  match a, b with
  | Some x, Some y => Some (Qc_ltb y x)
  | _, _ => None
  end.

Definition sql_ne (a b : option Qc) : option bool :=
  match a, b with
  | Some x, Some y => Some (negb (Qc_eqb x y))
  | _, _ => None
  end.

Definition sql_gt_ts (a b : option Z) : option bool :=
  match a, b with
  | Some x, Some y => Some (y <? x)
  | _, _ => None
  end.

Definition sql_and (a b : option bool) : option bool :=
  match a, b with
  | Some false, _ | _, Some false => Some false
  | Some true, Some true => Some true
  | _, _ => None
  end.

(** A WHERE clause keeps a row only when the condition is TRUE. *)
Definition is_true (c : option bool) : bool :=
  match c with Some true => true | _ => false end.

(** ** Timestamps *)

Definition micros_per_second : Z := 1000000.
Definition micros_per_hour : Z := 3600 * micros_per_second.
Definition micros_per_day : Z := 24 * micros_per_hour.

Definition days_of (t : Z) : Z := t / micros_per_day.

(** [EXTRACT(HOUR FROM ts)] *)
Definition extract_hour (ts : option Z) : option Z :=
  (fun t => (t mod micros_per_day) / micros_per_hour) <$> ts.

(** Day of the month of a day number counted from 1970-01-01
    (proleptic Gregorian calendar). *)
Definition day_of_month (days : Z) : Z :=
  let z := days + 719468 in
  let doe := z mod 146097 in
  let yoe := (doe - doe / 1460 + doe / 36524 - doe / 146096) / 365 in
  let doy := doe - (365 * yoe + yoe / 4 - yoe / 100) in
  let mp := (5 * doy + 2) / 153 in
  doy - (153 * mp + 2) / 5 + 1.

(** [EXTRACT(DAY FROM ts)] *)
Definition extract_day (ts : option Z) : option Z :=
  (fun t => day_of_month (days_of t)) <$> ts.

(** 1970-01-01 was a Thursday. *)
Definition weekday_name (days : Z) : string :=
  match (days + 4) mod 7 with
  | 0 => "Sunday" | 1 => "Monday" | 2 => "Tuesday" | 3 => "Wednesday"
  | 4 => "Thursday" | 5 => "Friday" | _ => "Saturday"
  end.

(** [DAYNAME(ts)] *)
Definition DAYNAME (ts : option Z) : option string :=
  (fun t => weekday_name (days_of t)) <$> ts.

(** [EXTRACT(EPOCH FROM (b - a))]: the length of the interval in seconds. *)
Definition extract_epoch_diff (b a : option Z) : option Qc :=
  match b, a with
  | Some y, Some x => Some (Qc_of_Z (y - x) / Qc_of_Z micros_per_second)%Qc
  | _, _ => None
  end.

(** ** Aggregates *)

Definition Qc_sum (xs : list Qc) : Qc := foldr Qcplus (Qc_of_Z 0) xs.

(** The non-NULL values of a column: the only ones SUM and AVG see. *)
Definition non_null {A} (xs : list (option A)) : list A := omap id xs.

(** [AVG(e)]: NULL over no non-NULL value. *)
Definition AVG (xs : list (option Qc)) : option Qc :=
  match non_null xs with
  | [] => None
  | v :: vs => Some (Qc_sum (v :: vs) / Qc_of_nat (length (v :: vs)))%Qc
  end.

(** [SUM(e)] *)
Definition SUM (xs : list (option Qc)) : option Qc :=
  match non_null xs with
  | [] => None
  | v :: vs => Some (Qc_sum (v :: vs))
  end.

(** [COUNT( * )] counts rows, NULLs included. *)
Definition COUNT_star {A} (rows : list A) : nat := length rows.

(** ** GROUP BY and ORDER BY *)

(** One group per distinct key value; NULL keys form a group of their own. *)
Definition group_by {A K} `{EqDecision K} (key : A → K) (t : list A)
  : list (K * list A) :=
  (fun k => (k, filter (fun r => key r = k) t)) <$> remove_dups (key <$> t).

Fixpoint insert_sorted {A} (before : A → A → bool) (x : A) (l : list A) : list A :=
  match l with
  | [] => [x]
  | y :: l' => if before x y then x :: y :: l'
               else y :: insert_sorted before x l'
  end.

(** ORDER BY as a stable sort: rows that the ordering does not separate
    keep their incoming order. *)
Definition order_by {A} (before : A → A → bool) (l : list A) : list A :=
  foldl (fun acc x => insert_sorted before x acc) [] l.

(** The order of two consecutive rows of a sorted result: the second one
    does not sort before the first. *)
Definition not_after {A} (before : A → A → bool) (x y : A) : Prop :=
  before y x = false.

(** Ascending and descending orders on nullable keys; NULLs sort last. *)
Definition asc {A} (lt : A → A → bool) (a b : option A) : bool :=
  match a, b with
  | Some x, Some y => lt x y
  | Some _, None => true
  | None, _ => false
  end.

Definition desc {A} (lt : A → A → bool) (a b : option A) : bool :=
  match a, b with
  | Some x, Some y => lt y x
  | Some _, None => true
  | None, _ => false
  end.

(** [ORDER BY e1, e2]: the second key decides among rows the first one
    does not separate. *)
Definition then_by {A} (b1 b2 : A → A → bool) (x y : A) : bool :=
  b1 x y || (negb (b1 y x) && b2 x y).

(** [ROUND(x, d)]: to [d] decimal places, halves away from zero. *)
Definition round_half_away (q : Qc) : Z :=
  if Qc_ltb q (Qc_of_Z 0)
  then - Qfloor (this (- q + Q2Qc (1 # 2))%Qc)
  else Qfloor (this (q + Q2Qc (1 # 2))%Qc).

Definition ROUND (x : option Qc) (d : nat) : option Qc :=
  (fun q => Qc_of_Z (round_half_away (q * Qc_of_Z (10 ^ Z.of_nat d))%Qc)
            / Qc_of_Z (10 ^ Z.of_nat d))%Qc <$> x.

(** ** The connection and Python exceptions *)

Inductive exn := CatalogException | TypeError | IOException.

Inductive result (A : Type) : Type :=
  | Ok (a : A)
  | Raise (e : exn).
Arguments Ok {A} a.
Arguments Raise {A} e.

Global Instance result_fmap : FMap result := fun _ _ f m =>
  match m with
  | Ok a => Ok (f a)
  | Raise e => Raise e
  end.
Global Instance result_ret : MRet result := fun _ a => Ok a.
Global Instance result_bind : MBind result := fun _ _ f m =>
  match m with
  | Ok a => f a
  | Raise e => Raise e
  end.

(** The state of the database behind [con]: the table, when it exists,
    and the two settings [main] writes. *)
Record connection := {
  yellow_taxi : option table;
  memory_limit : string;
  temp_directory : string
}.

(** [con.execute("SELECT ... FROM yellow_taxi ...").fetchall()]: the
    statement fails when the table does not exist. *)
Definition fetchall {A} (con : connection) (q : table → A) : result A :=
  match yellow_taxi con with
  | Some t => Ok (q t)
  | None => Raise CatalogException
  end.

(** [float(x)] and [int(x)] raise [TypeError] on [None]. *)
Definition py_float (x : option Qc) : result Qc :=
  match x with Some q => Ok q | None => Raise TypeError end.

Definition py_int (x : option Z) : result Z :=
  match x with Some n => Ok n | None => Raise TypeError end.

(** [float(x) if x is not None else 0] *)
Definition float_or_0 (x : option Qc) : Qc :=
  match x with Some q => q | None => Qc_of_Z 0 end.

(** A [for row in result:] loop that fills a container and stops at the
    first exception. *)
Fixpoint for_each {A S} (body : A → S → result S) (rows : list A) (acc : S)
  : result S :=
  match rows with
  | [] => Ok acc
  | r :: rest => acc' ← body r acc; for_each body rest acc'
  end.

(** ** [analyze_trips_by_hour] *)

Definition hour_of_day (r : row) : option Z :=
  extract_hour (tpep_pickup_datetime r).

(** [tip_amount / NULLIF(fare_amount, 0)] *)
Definition tip_ratio (r : row) : option Qc :=
  sql_div (tip_amount r) (NULLIF (fare_amount r) (Qc_of_Z 0)).

(** [AVG(tip_amount / NULLIF(fare_amount, 0)) * 100] *)
Definition avg_tip_percentage (rows : list row) : option Qc :=
  sql_mul (AVG (tip_ratio <$> rows)) (Some (Qc_of_Z 100)).

Definition hour_tuple : Type :=
  option Z * nat * option Qc * option Qc * option Qc * option Qc.

Definition trips_by_hour_select (g : option Z * list row) : hour_tuple :=
  (g.1,
   COUNT_star g.2,
   AVG (trip_distance <$> g.2),
   AVG (fare_amount <$> g.2),
   AVG (tip_amount <$> g.2),
   avg_tip_percentage g.2).

Definition trips_by_hour_query (t : table) : list hour_tuple :=
  order_by (fun a b : hour_tuple => asc Z.ltb a.1.1.1.1.1 b.1.1.1.1.1)
    (trips_by_hour_select <$> group_by hour_of_day t).

Module HourStats.
Record t := {
  trip_count : nat;
  avg_distance : Qc;
  avg_fare : Qc;
  avg_tip : Qc;
  tip_percentage : Qc
}.
End HourStats.

Definition hour_data_step (row : hour_tuple) (hour_data : gmap Z HourStats.t)
  : result (gmap Z HourStats.t) :=
  let '(hour, count, distance, fare, tip, tip_pct) := row in
  h ← py_int hour;
  d ← py_float distance;
  f ← py_float fare;
  tp ← py_float tip;
  Ok (<[h := {| HourStats.trip_count := count;
                HourStats.avg_distance := d;
                HourStats.avg_fare := f;
                HourStats.avg_tip := tp;
                HourStats.tip_percentage := float_or_0 tip_pct |}]> hour_data).

Definition analyze_trips_by_hour (con : connection) : result (gmap Z HourStats.t) :=
  rows ← fetchall con trips_by_hour_query;
  for_each hour_data_step rows ∅.

(** ** [analyze_popular_routes] *)

Definition route_key : Type := option Qc * option Qc * option Qc * option Qc.

Definition route_tuple : Type :=
  option Qc * option Qc * option Qc * option Qc
  * nat * option Qc * option Qc * option Qc.

(** [WHERE pickup_longitude != 0 AND pickup_latitude != 0
      AND dropoff_longitude != 0 AND dropoff_latitude != 0] *)
Definition routes_where (r : row) : bool :=
  is_true
    (sql_and (sql_and (sql_and
       (sql_ne (pickup_longitude r) (Some (Qc_of_Z 0)))
       (sql_ne (pickup_latitude r) (Some (Qc_of_Z 0))))
       (sql_ne (dropoff_longitude r) (Some (Qc_of_Z 0))))
       (sql_ne (dropoff_latitude r) (Some (Qc_of_Z 0)))).

Definition rounded_route (digits : nat) (r : row) : route_key :=
  (ROUND (pickup_longitude r) digits, ROUND (pickup_latitude r) digits,
   ROUND (dropoff_longitude r) digits, ROUND (dropoff_latitude r) digits).

Definition routes_select (g : route_key * list row) : route_tuple :=
  let '(pickup_long, pickup_lat, dropoff_long, dropoff_lat) := g.1 in
  (pickup_long, pickup_lat, dropoff_long, dropoff_lat,
   COUNT_star g.2,
   AVG (trip_distance <$> g.2),
   AVG (fare_amount <$> g.2),
   AVG (total_amount <$> g.2)).

Definition route_count (x : route_tuple) : nat := x.1.1.1.2.

(** The query over the view [taxi_routes] ([digits = 2]) and the
    fallback over the table ([digits = 1]) have the same shape: the view
    is the rounding and the WHERE clause of the fallback, stored. *)
Definition routes_query (digits limit : nat) (t : table) : list route_tuple :=
  take limit
    (order_by (fun a b => (route_count b <? route_count a)%nat)
       (routes_select <$> group_by (rounded_route digits) (filter routes_where t))).

Module Route.
Record point := { longitude : Qc; latitude : Qc }.
Record t := {
  pickup : point;
  dropoff : point;
  trip_count : nat;
  avg_distance : Qc;
  avg_fare : Qc;
  avg_total : Qc
}.
End Route.

Definition routes_data_step (row : route_tuple) (routes_data : list Route.t)
  : result (list Route.t) :=
  let '(pickup_long, pickup_lat, dropoff_long, dropoff_lat,
        count, distance, fare, total) := row in
  plong ← py_float pickup_long;
  plat ← py_float pickup_lat;
  dlong ← py_float dropoff_long;
  dlat ← py_float dropoff_lat;
  d ← py_float distance;
  f ← py_float fare;
  tot ← py_float total;
  Ok (routes_data ++
      [ {| Route.pickup := {| Route.longitude := plong; Route.latitude := plat |};
           Route.dropoff := {| Route.longitude := dlong; Route.latitude := dlat |};
           Route.trip_count := count;
           Route.avg_distance := d;
           Route.avg_fare := f;
           Route.avg_total := tot |} ]).

Definition analyze_popular_routes (con : connection) (limit : nat)
  : result (list Route.t) :=
  rows ← match fetchall con (routes_query 2 limit) with
          | Ok rows => Ok rows
          | Raise _ => fetchall con (routes_query 1 limit)
          end;
  for_each routes_data_step rows [].

(** The same function on an engine whose statements can fail on an
    existing table.  [attempt] is what the two statements of the [try]
    block, the CREATE OR REPLACE VIEW and the query over the view, come
    to: [None] when both execute, [Some e] when one of them raises [e]
    (the name [taxi_routes] is taken by a table, say, or the query runs
    out of memory); the [except] branch then runs the query with one
    decimal.  [analyze_popular_routes] is the case [None]. *)
Definition analyze_popular_routes_on (attempt : option exn) (con : connection)
    (limit : nat) : result (list Route.t) :=
  rows ← match (match attempt with
                | None => fetchall con (routes_query 2 limit)
                | Some e => Raise e
                end) with
          | Ok rows => Ok rows
          | Raise _ => fetchall con (routes_query 1 limit)
          end;
  for_each routes_data_step rows [].


(** ** [analyze_payment_methods] *)

Definition payment_desc (r : row) : string :=
  match payment_type r with
  | Some 1 => "Credit card"
  | Some 2 => "Cash"
  | Some 3 => "No charge"
  | Some 4 => "Dispute"
  | Some 5 => "Unknown"
  | Some 6 => "Voided"
  | _ => "Other"
  end.

Definition payment_tuple : Type :=
  option Z * string * nat * option Qc * option Qc * option Qc * option Qc.

Definition payment_key (r : row) : option Z * string :=
  (payment_type r, payment_desc r).

Definition payment_select (g : option Z * string * list row) : payment_tuple :=
  (g.1.1, g.1.2,
   COUNT_star g.2,
   AVG (fare_amount <$> g.2),
   AVG (tip_amount <$> g.2),
   SUM (tip_amount <$> g.2),
   avg_tip_percentage g.2).

Definition payment_count (x : payment_tuple) : nat := x.1.1.1.1.2.

Definition payment_methods_query (t : table) : list payment_tuple :=
  order_by (fun a b => (payment_count b <? payment_count a)%nat)
    (payment_select <$> group_by payment_key t).

Module PaymentStats.
Record t := {
  description : string;
  trip_count : nat;
  avg_fare : Qc;
  avg_tip : Qc;
  total_tips : Qc;
  tip_percentage : Qc
}.
End PaymentStats.

(** [str(payment_id)] *)
Definition py_str (x : option Z) : string :=
  match x with Some n => pretty n | None => "None" end.

Definition payment_data_step (row : payment_tuple)
    (payment_data : gmap string PaymentStats.t)
  : result (gmap string PaymentStats.t) :=
  let '(payment_id, payment_desc, count, fare, tip, total_tips, tip_pct) := row in
  f ← py_float fare;
  tp ← py_float tip;
  tt ← py_float total_tips;
  Ok (<[py_str payment_id :=
          {| PaymentStats.description := payment_desc;
             PaymentStats.trip_count := count;
             PaymentStats.avg_fare := f;
             PaymentStats.avg_tip := tp;
             PaymentStats.total_tips := tt;
             PaymentStats.tip_percentage := float_or_0 tip_pct |}]> payment_data).

Definition analyze_payment_methods (con : connection)
  : result (gmap string PaymentStats.t) :=
  rows ← fetchall con payment_methods_query;
  for_each payment_data_step rows ∅.

(** ** [analyze_busy_days_and_times] *)

Definition day_name (r : row) : option string := DAYNAME (tpep_pickup_datetime r).

(** [EXTRACT(EPOCH FROM (tpep_dropoff_datetime - tpep_pickup_datetime))] *)
Definition duration_seconds (r : row) : option Qc :=
  extract_epoch_diff (tpep_dropoff_datetime r) (tpep_pickup_datetime r).

(** The divisor of the speed expression: the duration in hours. *)
Definition duration_hours (r : row) : option Qc :=
  sql_div (duration_seconds r) (Some (Qc_of_Z 3600)).

(** [trip_distance / (EXTRACT(EPOCH FROM ...) / 3600)] *)
Definition speed_mph (r : row) : option Qc :=
  sql_div (trip_distance r) (duration_hours r).

(** [WHERE tpep_dropoff_datetime > tpep_pickup_datetime
      AND trip_distance > 0
      AND EXTRACT(EPOCH FROM ...) > 60] *)
Definition busy_days_where (r : row) : bool :=
  is_true
    (sql_and (sql_and
       (sql_gt_ts (tpep_dropoff_datetime r) (tpep_pickup_datetime r))
       (sql_gt (trip_distance r) (Some (Qc_of_Z 0))))
       (sql_gt (duration_seconds r) (Some (Qc_of_Z 60)))).

(** [CASE day_name WHEN 'Monday' THEN 1 ... WHEN 'Sunday' THEN 7 END] *)
Definition day_rank (d : option string) : option Z :=
  match d with
  | Some "Monday" => Some 1
  | Some "Tuesday" => Some 2
  | Some "Wednesday" => Some 3
  | Some "Thursday" => Some 4
  | Some "Friday" => Some 5
  | Some "Saturday" => Some 6
  | Some "Sunday" => Some 7
  | _ => None
  end%string.

Definition day_tuple : Type :=
  option string * nat * option Qc * option Qc * option Qc * option Qc.

Definition day_select (g : option string * list row) : day_tuple :=
  (g.1,
   COUNT_star g.2,
   AVG (trip_distance <$> g.2),
   AVG (fare_amount <$> g.2),
   AVG (tip_amount <$> g.2),
   AVG (speed_mph <$> g.2)).

Definition day_query (t : table) : list day_tuple :=
  order_by (fun a b : day_tuple =>
              asc Z.ltb (day_rank a.1.1.1.1.1) (day_rank b.1.1.1.1.1))
    (day_select <$> group_by day_name (filter busy_days_where t)).

Definition hour_by_day_tuple : Type := option string * option Z * nat.

Definition hour_by_day_key (r : row) : option string * option Z :=
  (day_name r, hour_of_day r).

Definition hour_by_day_select (g : option string * option Z * list row)
  : hour_by_day_tuple :=
  (g.1.1, g.1.2, COUNT_star g.2).

Definition hour_by_day_query (t : table) : list hour_by_day_tuple :=
  order_by (then_by
              (fun a b : hour_by_day_tuple => asc Z.ltb (day_rank a.1.1) (day_rank b.1.1))
              (fun a b : hour_by_day_tuple => asc Z.ltb a.1.2 b.1.2))
    (hour_by_day_select <$> group_by hour_by_day_key t).

Module DayStats.
Record t := {
  trip_count : nat;
  avg_distance : Qc;
  avg_fare : Qc;
  avg_tip : Qc;
  avg_speed_mph : Qc
}.
End DayStats.

(** A dictionary key that is later formatted with a width ([f"{day:^10}"])
    or used next to [int(hour)]: [None] ends in [TypeError]. *)
Definition py_key (x : option string) : result string :=
  match x with Some s => Ok s | None => Raise TypeError end.

Definition day_data_step (row : day_tuple) (day_data : gmap string DayStats.t)
  : result (gmap string DayStats.t) :=
  let '(day, count, distance, fare, tip, speed) := row in
  d ← py_float distance;
  f ← py_float fare;
  tp ← py_float tip;
  k ← py_key day;
  Ok (<[k := {| DayStats.trip_count := count;
                DayStats.avg_distance := d;
                DayStats.avg_fare := f;
                DayStats.avg_tip := tp;
                DayStats.avg_speed_mph := float_or_0 speed |}]> day_data).

Definition hour_by_day_step (row : hour_by_day_tuple)
    (hour_by_day_data : gmap string (gmap Z nat))
  : result (gmap string (gmap Z nat)) :=
  let '(day, hour, count) := row in
  k ← py_key day;
  h ← py_int hour;
  Ok (<[k := <[h := count]> (default ∅ (hour_by_day_data !! k))]> hour_by_day_data).

Definition analyze_busy_days_and_times (con : connection)
  : result (gmap string DayStats.t * gmap string (gmap Z nat)) :=
  day_result ← fetchall con day_query;
  hour_by_day_result ← fetchall con hour_by_day_query;
  day_data ← for_each day_data_step day_result ∅;
  hour_by_day_data ← for_each hour_by_day_step hour_by_day_result ∅;
  Ok (day_data, hour_by_day_data).

(** ** [test_large_memory_processing]: the window functions *)

(** [RANK() OVER (PARTITION BY p ORDER BY ...)]: one more than the number
    of rows of the same partition that the ordering puts strictly before. *)
Definition RANK {A K} `{EqDecision K} (partition : A → K)
    (before : A → A → bool) (t : list A) (r : A) : nat :=
  S (length (filter (fun r' => bool_decide (partition r' = partition r) && before r' r) t)).

(** [RANK() OVER (PARTITION BY EXTRACT(DAY FROM tpep_pickup_datetime)
                  ORDER BY fare_amount DESC)] *)
Definition pickup_day (r : row) : option Z := extract_day (tpep_pickup_datetime r).

Definition fare_desc (a b : row) : bool :=
  desc Qc_ltb (fare_amount a) (fare_amount b).

Definition day_fare_rank (t : table) (r : row) : nat :=
  RANK pickup_day fare_desc t r.

(** The frame [ROWS BETWEEN p PRECEDING AND f FOLLOWING] of the row at
    position [i] of the ordered rows: it stops at the first and at the
    last row. *)
Definition rows_between {A} (p f : nat) (sorted : list A) (i : nat) : list A :=
  let start := (i - p)%nat in
  let stop := ((i + f + 1) `min` length sorted)%nat in
  take (stop - start)%nat (drop start sorted).

(** The rows with their positions in the list, from 0. *)
Definition indexed {A} (l : list A) : list (nat * A) := zip (seq 0 (length l)) l.

(** [AVG(e) OVER (ORDER BY ... ROWS BETWEEN r PRECEDING AND r FOLLOWING)],
    for every position of the ordered rows. *)
Definition moving_avg {A} (e : A → option Qc) (radius : nat) (sorted : list A)
  : list (A * option Qc) :=
  imap (fun i x => (x, AVG (e <$> rows_between radius radius sorted i))) sorted.

(** [NTILE(T)] of the row at position [i] (from 0) among [n] ordered rows:
    the first [n mod T] buckets take one row more than the others; with
    fewer rows than buckets every row has a bucket of its own. *)
Definition NTILE (T n i : nat) : nat :=
  let T' := (T `min` n)%nat in
  let size := (n / T')%nat in
  let large := (n - T' * size)%nat in
  let i_small := (large * (size + 1))%nat in
  if (i <? i_small)%nat then (1 + i / (size + 1))%nat
  else (1 + large + (i - i_small) / size)%nat.

(** The positions of bucket [b] when [l] buckets hold [s + 1] rows and the
    others [s]: they start at [bucket_start] and there are [bucket_size]
    of them. *)
Definition bucket_start (s l b : nat) : nat :=
  if decide (b ≤ l)%nat then ((b - 1) * (s + 1))%nat
  else (l * (s + 1) + (b - 1 - l) * s)%nat.

Definition bucket_size (s l b : nat) : nat :=
  if decide (b ≤ l)%nat then (s + 1)%nat else s.

Definition ntile_over {A} (T : nat) (sorted : list A) : list (A * nat) :=
  imap (fun i x => (x, NTILE T (length sorted) i)) sorted.

Record trip_rank := {
  trip : row;
  tr_day_fare_rank : nat;
  moving_avg_fare : option Qc;
  distance_percentile : nat
}.

Definition moving_avg_radius : nat := Z.to_nat 10000.

(** [NTILE(T) OVER (ORDER BY key)] *)
Definition percentile_tile {A} (key : A → option Qc) (T : nat) (rows : list A)
  : list (A * nat) :=
  ntile_over T (order_by (fun a b => asc Qc_ltb (key a) (key b)) rows).

(** The common table expression [trip_ranks]. *)
Definition trip_ranks (t : table) : list trip_rank :=
  let ranked := (fun r => (r, day_fare_rank t r)) <$> t in
  let by_pickup :=
    order_by (fun a b : row * nat =>
                asc Z.ltb (tpep_pickup_datetime a.1) (tpep_pickup_datetime b.1)) ranked in
  let averaged := moving_avg (fun x : row * nat => fare_amount x.1) moving_avg_radius by_pickup in
  (fun x : row * nat * option Qc * nat =>
     {| trip := x.1.1.1; tr_day_fare_rank := x.1.1.2;
        moving_avg_fare := x.1.2; distance_percentile := x.2 |})
  <$> percentile_tile (fun x : row * nat * option Qc => trip_distance x.1.1) 100 averaged.

Definition percentile_tuple : Type :=
  nat * option Qc * option Qc * option Qc * nat.

Definition percentile_select (g : nat * list trip_rank) : percentile_tuple :=
  (g.1,
   ROUND (AVG ((fun x => trip_distance (trip x)) <$> g.2)) 2,
   ROUND (AVG ((fun x => fare_amount (trip x)) <$> g.2)) 2,
   ROUND (AVG ((fun x => tip_amount (trip x)) <$> g.2)) 2,
   COUNT_star g.2).

Definition percentile_query (t : table) : list percentile_tuple :=
  order_by (fun a b : percentile_tuple => (a.1.1.1.1 <? b.1.1.1.1)%nat)
    (percentile_select <$>
       group_by distance_percentile
         (filter (fun x => (tr_day_fare_rank x <=? 1000)%nat) (trip_ranks t))).

(** Returns [(success, len(result))]; the wall-clock duration and the
    printed [PRAGMA memory_info] are left out. *)
Definition test_large_memory_processing (con : connection) : bool * nat :=
  match fetchall con percentile_query with
  | Ok rows => (true, length rows)
  | Raise _ => (false, 0%nat)
  end.

(** ** [load_csv_to_duckdb] *)

(** The file system is a map from the paths [read_csv_auto] can open to
    the rows it reads from them. *)

Definition with_table (con : connection) (t : option table) : connection :=
  {| yellow_taxi := t;
     memory_limit := memory_limit con;
     temp_directory := temp_directory con |}.

(** [DROP TABLE IF EXISTS yellow_taxi] *)
Definition drop_table_if_exists (con : connection) : result connection :=
  Ok (with_table con None).

(** [CREATE TABLE yellow_taxi AS SELECT * FROM read_csv_auto(?)]: one
    statement, so a failed read creates nothing. *)
Definition create_table_as_read_csv (fs : gmap string table) (csv_file : string)
    (con : connection) : result connection :=
  match fs !! csv_file with
  | Some t => Ok (with_table con (Some t))
  | None => Raise IOException
  end.

(** Returns [(success, row_count)] and the connection as the statements
    left it; every statement is committed on its own, and the [except]
    branch undoes nothing.  The wall-clock duration is left out. *)
Definition load_csv_to_duckdb (fs : gmap string table) (csv_file : string)
    (con : connection) : bool * nat * connection :=
  match drop_table_if_exists con with
  | Raise _ => (false, 0%nat, con)
  | Ok con1 =>
      match create_table_as_read_csv fs csv_file con1 with
      | Raise _ => (false, 0%nat, con1)
      | Ok con2 =>
          match fetchall con2 (fun t => length t) with
          | Ok row_count => (true, row_count, con2)
          | Raise _ => (false, 0%nat, con2)
          end
      end
  end.

(** ** [main]: the analytics block *)

Record analytics_results := {
  hourly_stats : gmap Z HourStats.t;
  popular_routes : list Route.t;
  payment_stats : gmap string PaymentStats.t;
  day_stats : gmap string DayStats.t;
  hourly_day_stats : gmap string (gmap Z nat)
}.

(** [try: x = f(con) except Exception: x = fallback] *)
Definition try_or {A} (m : result A) (fallback : A) : A :=
  match m with Ok a => a | Raise _ => fallback end.

Definition main_analytics (con : connection) : result analytics_results :=
  hourly ← analyze_trips_by_hour con;
  let routes := try_or (analyze_popular_routes con 10) [] in
  let payment := try_or (analyze_payment_methods con) ∅ in
  let days := try_or (analyze_busy_days_and_times con) (∅, ∅) in
  Ok {| hourly_stats := hourly;
        popular_routes := routes;
        payment_stats := payment;
        day_stats := days.1;
        hourly_day_stats := days.2 |}.

(** ** The grouped-aggregation evaluator under a memory budget

    The source hands every query to the embedded engine and only sets
    [memory_limit] and [temp_directory] on the connection; how a query is
    evaluated within that limit is the engine's business.  The evaluator
    below follows the description of that engine and is instantiated at
    the payment-methods query.  It is written once for any kind of
    number, so that it can be run on the exact rationals of the queries
    above and on the double-precision values that the columns hold. *)

(** Modelled from the spec: the values of a numeric Column, "64-bit
    signed integer, double-precision float", with the operations that
    the aggregates of the payment-methods query apply to them.  The
    engine's number types are not part of the source. *)
Class Number (V : Type) := {
  num_of_nat : nat → V;
  num_add : V → V → V;
  num_mul : V → V → V;
  num_div : V → V → V;
  num_is_zero : V → bool
}.

(** The exact rationals, as in the queries above. *)
Global Instance exact : Number Qc := {|
  num_of_nat := Qc_of_nat;
  num_add := Qcplus;
  num_mul := Qcmult;
  num_div := Qcdiv;
  num_is_zero := fun x => Qc_eqb x (Qc_of_Z 0)
|}.

(** Double precision: IEEE 754 binary64, every operation rounded to
    nearest. *)
Global Instance binary64 : Number float := {|
  num_of_nat := fun n => PrimFloat.of_uint63 (Uint63.of_Z (Z.of_nat n));
  num_add := PrimFloat.add;
  num_mul := PrimFloat.mul;
  num_div := PrimFloat.div;
  num_is_zero := fun x => PrimFloat.eqb x PrimFloat.zero
|}.

(** Additions that never round: the sum of some values does not depend
    on the order in which they are added. *)
Class ExactSum (V : Type) `{Number V} : Prop := {
  num_add_comm : ∀ x y : V, num_add x y = num_add y x;
  num_add_assoc : ∀ x y z : V, num_add x (num_add y z) = num_add (num_add x y) z;
  num_add_0_l : ∀ x : V, num_add (num_of_nat 0) x = x
}.

(** Modelled from the spec: the Columns of the Table that the
    payment-methods aggregation scans, the group key and the two numeric
    columns, read from a record of type [R]. *)
Class PaymentColumns (R V : Type) := {
  col_key : R → option Z * string;
  col_fare : R → option V;
  col_tip : R → option V
}.

(** The rows of [yellow_taxi] as the queries above see them. *)
Global Instance row_columns : PaymentColumns row Qc := {|
  col_key := payment_key;
  col_fare := fare_amount;
  col_tip := tip_amount
|}.

(** Modelled from the spec: the Memory Budget Controller, "a configured
    ceiling (bytes)", [reserve(bytes) -> granted|denied] and
    [release(bytes)]; [None] is a denial. *)
Record budget := { ceiling : nat; in_use : nat }.

Definition reserve (bytes : nat) (b : budget) : option budget :=
  if (in_use b + bytes <=? ceiling b)%nat
  then Some {| ceiling := ceiling b; in_use := (in_use b + bytes)%nat |}
  else None.

Definition release (bytes : nat) (b : budget) : budget :=
  {| ceiling := ceiling b; in_use := (in_use b - bytes)%nat |}.

Definition payment_result (V : Type) : Type :=
  option Z * string * nat * option V * option V * option V * option V.









Definition result_count {V} (x : payment_result V) : nat := x.1.1.1.1.2.

Section evaluator.
Context {R V : Type} `{Number V} `{PaymentColumns R V}.

(** [tip_amount / NULLIF(fare_amount, 0)] *)
Definition col_ratio (r : R) : option V :=
  match col_tip r, col_fare r with
  | Some x, Some y => if num_is_zero y then None else Some (num_div x y)
  | _, _ => None
  end.

(** Modelled from the spec: the Aggregate Accumulator, "per-group mutable
    state (running count, running sum)" with [update] and [finalize],
    "average = sum/count, guarding divide-by-zero by emitting null".  The
    engine's own accumulators are not part of the source. *)
Record cell := { cell_sum : V; cell_count : nat }.

Definition cell_empty : cell := {| cell_sum := num_of_nat 0; cell_count := 0 |}.

Definition cell_update (c : cell) (v : option V) : cell :=
  match v with
  | Some x => {| cell_sum := num_add (cell_sum c) x; cell_count := S (cell_count c) |}
  | None => c
  end.

Definition cell_merge (a b : cell) : cell :=
  {| cell_sum := num_add (cell_sum a) (cell_sum b);
     cell_count := (cell_count a + cell_count b)%nat |}.

Definition cell_avg (c : cell) : option V :=
  match cell_count c with
  | O => None
  | S _ => Some (num_div (cell_sum c) (num_of_nat (cell_count c)))
  end.

Definition cell_total (c : cell) : option V :=
  match cell_count c with
  | O => None
  | S _ => Some (cell_sum c)
  end.

(** Modelled from the spec: the accumulator of one payment group, one
    running count of rows and one cell per aggregated expression; the
    merge is the "merge of count/sum per key". *)
Record accumulator := {
  acc_rows : nat;
  acc_fare : cell;
  acc_tip : cell;
  acc_ratio : cell
}.

Definition acc_empty : accumulator :=
  {| acc_rows := 0; acc_fare := cell_empty; acc_tip := cell_empty;
     acc_ratio := cell_empty |}.

Definition acc_update (a : accumulator) (r : R) : accumulator :=
  {| acc_rows := S (acc_rows a);
     acc_fare := cell_update (acc_fare a) (col_fare r);
     acc_tip := cell_update (acc_tip a) (col_tip r);
     acc_ratio := cell_update (acc_ratio a) (col_ratio r) |}.

Definition acc_merge (a b : accumulator) : accumulator :=
  {| acc_rows := (acc_rows a + acc_rows b)%nat;
     acc_fare := cell_merge (acc_fare a) (acc_fare b);
     acc_tip := cell_merge (acc_tip a) (acc_tip b);
     acc_ratio := cell_merge (acc_ratio a) (acc_ratio b) |}.

Definition acc_finalize (k : option Z * string) (a : accumulator) : payment_result V :=
  (k.1, k.2,
   acc_rows a,
   cell_avg (acc_fare a),
   cell_avg (acc_tip a),
   cell_total (acc_tip a),
   (fun x => num_mul x (num_of_nat 100)) <$> cell_avg (acc_ratio a)).

(** Modelled from the spec: the state of the evaluator during the scan,
    the resident mapping from group key to accumulator and the sealed
    Spill Segments written so far, newest first. *)
Record evaluator := {
  resident : gmap (option Z * string) accumulator;
  segments : list (gmap (option Z * string) accumulator);
  controller : budget
}.

Definition evaluator_start (ceiling_bytes : nat) : evaluator :=
  {| resident := ∅; segments := [];
     controller := {| ceiling := ceiling_bytes; in_use := 0 |} |}.

(** "spill the partially-built accumulator table to a Spill Segment,
    reset in-memory accumulators", giving their memory back. *)
Definition spill (st : evaluator) : evaluator :=
  {| resident := ∅;
     segments := resident st :: segments st;
     controller := release (in_use (controller st)) (controller st) |}.

Definition install (k : option Z * string) (r : R) (b : budget) (st : evaluator)
  : evaluator :=
  {| resident := <[k := acc_update acc_empty r]> (resident st);
     segments := segments st;
     controller := b |}.

(** Modelled from the spec: one step of the "single pass over the Table".
    A row of a resident group updates its accumulator in place; a new
    group reserves [entry_bytes] first and, "on denial", the evaluator
    spills and retries "against freed memory"; a second denial is
    MemoryExceeded ([None]), "fatal to the single query in progress". *)
Definition scan_row (entry_bytes : nat) (st : evaluator) (r : R)
  : option evaluator :=
  let k := col_key r in
  match resident st !! k with
  | Some a =>
      Some {| resident := <[k := acc_update a r]> (resident st);
              segments := segments st;
              controller := controller st |}
  | None =>
      match reserve entry_bytes (controller st) with
      | Some b => Some (install k r b st)
      | None =>
          let st' := spill st in
          match reserve entry_bytes (controller st') with
          | Some b => Some (install k r b st')
          | None => None
          end
      end
  end.

Fixpoint scan (entry_bytes : nat) (st : evaluator) (t : list R) : option evaluator :=
  match t with
  | [] => Some st
  | r :: t' => st' ← scan_row entry_bytes st r; scan entry_bytes st' t'
  end.

Definition merge_maps (m1 m2 : gmap (option Z * string) accumulator)
  : gmap (option Z * string) accumulator :=
  union_with (fun a b => Some (acc_merge a b)) m1 m2.

(** "later merge all Spill Segments by group key ... before finalizing" *)
Definition merge_all (st : evaluator) : gmap (option Z * string) accumulator :=
  foldr merge_maps ∅ (resident st :: segments st).

(** Modelled from the spec: the payment-methods aggregation run by the
    evaluator under [ceiling_bytes]; the result rows, ordered by count
    descending, and the number of Spill Segments that were written. *)
Definition aggregate_within (ceiling_bytes entry_bytes : nat) (t : list R)
  : option (list (payment_result V) * nat) :=
  st ← scan entry_bytes (evaluator_start ceiling_bytes) t;
  Some (order_by (fun a b => (result_count b <? result_count a)%nat)
          ((fun kv => acc_finalize kv.1 kv.2) <$> map_to_list (merge_all st)),
        length (segments st)).

(** What the accumulators of a group come to when no addition rounds,
    whatever was spilled: the rows of the group absorbed one by one. *)
Definition acc_of (rows : list R) : accumulator :=
  foldl acc_update acc_empty rows.



End evaluator.

Arguments cell : clear implicits.
Arguments accumulator : clear implicits.
Arguments evaluator : clear implicits.

(** What a quantity carried by the accumulators of a group comes to:
    the contributions [one r] of its rows combined one by one. *)
Definition absorb {R M} (op : M → M → M) (unit : M) (one : R → M)
    (o : option M) (r : R) : option M :=
  Some (op (default unit o) (one r)).

Definition measure {R M} (op : M → M → M) (unit : M) (one : R → M)
    (rows : list R) : M :=
  foldl (fun m r => op m (one r)) unit rows.

(** ** Sample trips for the worked examples *)

(** A time of day in March 2016; the first of March is day 16861. *)
Definition march_2016 (day hour minute : Z) : Z :=
  ((16860 + day) * 86400 + hour * 3600 + minute * 60) * micros_per_second.

Definition sample_trip (pickup minutes payment : Z) (distance fare tip : option Qc)
  : row :=
  {| tpep_pickup_datetime := Some pickup;
     tpep_dropoff_datetime := Some (pickup + minutes * 60 * micros_per_second);
     trip_distance := distance;
     pickup_longitude := None;
     pickup_latitude := None;
     dropoff_longitude := None;
     dropoff_latitude := None;
     payment_type := Some payment;
     fare_amount := fare;
     tip_amount := tip;
     total_amount := None |}.

Definition dollars (n : Z) : option Qc := Some (Qc_of_Z n).

Definition three_rows : table :=
  [ sample_trip (march_2016 1 0 5) 10 1 (dollars 2) (dollars 10) (dollars 1);
    sample_trip (march_2016 1 0 40) 10 1 (dollars 2) (dollars 20) (dollars 1);
    sample_trip (march_2016 1 13 10) 10 2 (dollars 2) (dollars 30) (dollars 1) ].

(** Three trips of the same day, two of them with the same fare. *)
Definition tied_fares : table :=
  [ sample_trip (march_2016 1 8 0) 10 1 (dollars 2) (dollars 20) (dollars 1);
    sample_trip (march_2016 1 9 0) 10 1 (dollars 2) (dollars 20) (dollars 1);
    sample_trip (march_2016 1 10 0) 10 1 (dollars 2) (dollars 10) (dollars 1) ].

(** One hundred and one trips of increasing distance. *)
Definition hundred_one_trips : table :=
  (fun i => sample_trip (march_2016 1 8 0 + i) 10 1 (dollars i) (dollars 10) (dollars 1))
  <$> seqZ 0 101.

(** A connection on which [main] has set its default limits. *)
Definition connect (t : option table) : connection :=
  {| yellow_taxi := t; memory_limit := "400MB"; temp_directory := "db/temp" |}.


(** Five trips in a row, with fares 10 to 50. *)
Definition five_fares : list (option Qc) :=
  dollars <$> [10; 20; 30; 40; 50].

(** Two trips of the same hour paid in cash; the first one has a zero
    fare and a tip. *)
Definition zero_fare_trips : table :=
  [ sample_trip (march_2016 1 8 0) 10 2 (dollars 2) (dollars 0) (dollars 5);
    sample_trip (march_2016 1 8 30) 10 2 (dollars 2) (dollars 20) (dollars 5) ].

(** ** The loops as conversions

    Every [for row in result:] loop of the analyses converts the row and
    stores the outcome; the conversions are the part that can raise. *)

(** The conversions of all the rows, up to the first one that raises. *)
Fixpoint convert_all {A B} (conv : A → result B) (rows : list A) : result (list B) :=
  match rows with
  | [] => Ok []
  | r :: rest => x ← conv r; xs ← convert_all conv rest; Ok (x :: xs)
  end.

(** [d[k] = v] for every converted row, in order. *)
Definition store_all {K V} `{Countable K} (acc : gmap K V) (kvs : list (K * V))
  : gmap K V :=
  foldl (fun m kv => <[kv.1 := kv.2]> m) acc kvs.

(** The key and the value that [analyze_trips_by_hour] stores for a row. *)
Definition hour_entry (row : hour_tuple) : result (Z * HourStats.t) :=
  let '(hour, count, distance, fare, tip, tip_pct) := row in
  h ← py_int hour;
  d ← py_float distance;
  f ← py_float fare;
  tp ← py_float tip;
  Ok (h, {| HourStats.trip_count := count;
            HourStats.avg_distance := d;
            HourStats.avg_fare := f;
            HourStats.avg_tip := tp;
            HourStats.tip_percentage := float_or_0 tip_pct |}).

(** The description of a payment type: the CASE of the payment query. *)
Definition payment_desc_of (p : option Z) : string :=
  match p with
  | Some 1 => "Credit card"
  | Some 2 => "Cash"
  | Some 3 => "No charge"
  | Some 4 => "Dispute"
  | Some 5 => "Unknown"
  | Some 6 => "Voided"
  | _ => "Other"
  end.

(** The key and the value that [analyze_payment_methods] stores for a row. *)
Definition payment_entry (row : payment_tuple) : result (string * PaymentStats.t) :=
  let '(payment_id, payment_desc, count, fare, tip, total_tips, tip_pct) := row in
  f ← py_float fare;
  tp ← py_float tip;
  tt ← py_float total_tips;
  Ok (py_str payment_id,
      {| PaymentStats.description := payment_desc;
         PaymentStats.trip_count := count;
         PaymentStats.avg_fare := f;
         PaymentStats.avg_tip := tp;
         PaymentStats.total_tips := tt;
         PaymentStats.tip_percentage := float_or_0 tip_pct |}).

(** The record that [analyze_popular_routes] appends for a row. *)
Definition route_entry (row : route_tuple) : result Route.t :=
  let '(pickup_long, pickup_lat, dropoff_long, dropoff_lat,
        count, distance, fare, total) := row in
  plong ← py_float pickup_long;
  plat ← py_float pickup_lat;
  dlong ← py_float dropoff_long;
  dlat ← py_float dropoff_lat;
  d ← py_float distance;
  f ← py_float fare;
  tot ← py_float total;
  Ok {| Route.pickup := {| Route.longitude := plong; Route.latitude := plat |};
        Route.dropoff := {| Route.longitude := dlong; Route.latitude := dlat |};
        Route.trip_count := count;
        Route.avg_distance := d;
        Route.avg_fare := f;
        Route.avg_total := tot |}.

(** The key and the value that [analyze_busy_days_and_times] stores for a
    row of the day query. *)
Definition day_entry (row : day_tuple) : result (string * DayStats.t) :=
  let '(day, count, distance, fare, tip, speed) := row in
  d ← py_float distance;
  f ← py_float fare;
  tp ← py_float tip;
  k ← py_key day;
  Ok (k, {| DayStats.trip_count := count;
            DayStats.avg_distance := d;
            DayStats.avg_fare := f;
            DayStats.avg_tip := tp;
            DayStats.avg_speed_mph := float_or_0 speed |}).

(** The day, the hour and the count that the heat-map loop stores. *)
Definition hour_by_day_entry (row : hour_by_day_tuple) : result (string * Z * nat) :=
  let '(day, hour, count) := row in
  k ← py_key day;
  h ← py_int hour;
  Ok (k, h, count).

(** [hour_by_day_data[day][hour] = count], creating the inner dictionary
    when the day is new. *)
Definition store_cell (m : gmap string (gmap Z nat)) (x : string * Z * nat)
  : gmap string (gmap Z nat) :=
  <[x.1.1 := <[x.1.2 := x.2]> (default ∅ (m !! x.1.1))]> m.

(** [hour_by_day_data.get(day, {}).get(hour, 0)], the cell of the printed
    heat map. *)
Definition heat_map_cell (m : gmap string (gmap Z nat)) (day : string) (hour : Z)
  : nat :=
  default 0%nat (default ∅ (m !! day) !! hour).

(** A trip with a pick-up time, a distance, a fare, a tip and a total:
    the columns that the conversions of the analyses need. *)
Definition complete_trip (r : row) : Prop :=
  is_Some (tpep_pickup_datetime r) ∧ is_Some (trip_distance r)
  ∧ is_Some (fare_amount r) ∧ is_Some (tip_amount r) ∧ is_Some (total_amount r).

(** Two trips with coordinates and totals. *)
Definition complete_trips : table :=
  [ {| tpep_pickup_datetime := Some (march_2016 1 8 0);
       tpep_dropoff_datetime := Some (march_2016 1 8 20);
       trip_distance := dollars 3;
       pickup_longitude := Some (Q2Qc (-7398 # 100));
       pickup_latitude := Some (Q2Qc (4075 # 100));
       dropoff_longitude := Some (Q2Qc (-7396 # 100));
       dropoff_latitude := Some (Q2Qc (4078 # 100));
       payment_type := Some 1;
       fare_amount := dollars 12;
       tip_amount := dollars 2;
       total_amount := dollars 15 |};
    {| tpep_pickup_datetime := Some (march_2016 2 9 0);
       tpep_dropoff_datetime := Some (march_2016 2 9 10);
       trip_distance := dollars 1;
       pickup_longitude := Some (Q2Qc (-7398 # 100));
       pickup_latitude := Some (Q2Qc (4075 # 100));
       dropoff_longitude := Some (Q2Qc (-7396 # 100));
       dropoff_latitude := Some (Q2Qc (4078 # 100));
       payment_type := None;
       fare_amount := dollars 6;
       tip_amount := dollars 0;
       total_amount := dollars 7 |} ].

(** ** [run_analytics] *)

Record run_results := {
  results : analytics_results;
  large_memory_test : bool * nat
}.

(** The analyses one after the other, none of them guarded, then the
    larger-than-memory test, then the JSON file; [writable] tells whether
    [open(json_filename, "w")] succeeds.  The time stamp in the file name
    and the duration are left out. *)
Definition run_analytics (con : connection) (writable : bool) : result run_results :=
  hourly ← analyze_trips_by_hour con;
  routes ← analyze_popular_routes con 10;
  payment ← analyze_payment_methods con;
  days ← analyze_busy_days_and_times con;
  let test := test_large_memory_processing con in
  if writable
  then Ok {| results := {| hourly_stats := hourly;
                           popular_routes := routes;
                           payment_stats := payment;
                           day_stats := days.1;
                           hourly_day_stats := days.2 |};
             large_memory_test := test |}
  else Raise IOException.

(** The call returned: it raised nothing. *)
Definition succeeds {A} (m : result A) : Prop := ∃ x, m = Ok x.

(** ** [main] *)

(** [os.environ.get(name, fallback)] *)
Definition environ_get (environ : gmap string string) (name fallback : string)
  : string :=
  default fallback (environ !! name).

(** [input(...).lower() == 'y']: the answers whose lower case is "y" are
    "y" and "Y". *)
Definition answered_yes (answer : string) : bool :=
  bool_decide (answer = "y" ∨ answer = "Y")%string.

(** The calls of [main] that are outside its [try] block and can raise:
    [None] when the call returns, [Some e] when it raises [e]. *)
Record platform := {
  (** [os.makedirs(path, exist_ok=True)] *)
  os_makedirs : string → option exn;
  (** [duckdb.connect(database=db_name)] *)
  duckdb_connect : option exn;
  (** [con.execute(f"SET {name}='{value}'")] *)
  execute_set : string → string → option exn
}.

(** What a run of [main] leaves behind: the database as the connection
    last saw it, the report, when one was written, and the exception
    that [main] let through, when it did. *)
Record main_outcome := {
  database : connection;
  report : option analytics_results;
  uncaught : option exn
}.

(** A call outside the [try] block: an exception ends [main] there, with
    the database as it is at that point. *)
Definition unless_raised (call : option exn) (db : connection)
    (rest : main_outcome) : main_outcome :=
  match call with
  | Some e => {| database := db; report := None; uncaught := Some e |}
  | None => rest
  end.

(** [main(csv_file)].  [sys] tells what the calls outside the [try]
    block do, [environ] is the process environment, [files] the paths
    for which [os.path.exists] holds, [fs] what [read_csv_auto] can read,
    [answer] the line typed at the prompt, [reports_writable] whether the
    report file can be opened, and [db] the database that
    [duckdb.connect] opens.  The prints, and the loading speed computed
    from the wall clock, are left out. *)
Definition main (sys : platform) (environ : gmap string string)
    (files : gset string) (fs : gmap string table) (answer : string)
    (reports_writable : bool) (db : connection) (csv_file : option string)
  : main_outcome :=
  let temp_dir := environ_get environ "DUCKDB_TEMP_DIRECTORY" "db/temp" in
  let limit := environ_get environ "DUCKDB_MEMORY_LIMIT" "400MB" in
  let returned d r := {| database := d; report := r; uncaught := None |} in
  unless_raised (os_makedirs sys "db") db (
  unless_raised (os_makedirs sys temp_dir) db (
  match csv_file with
  | None => returned db None
  | Some path =>
      if negb (bool_decide (path ∈ files))
      then returned db None
      else
        unless_raised (duckdb_connect sys) db (
        unless_raised (execute_set sys "temp_directory" temp_dir) db (
        let con0 :=
          {| yellow_taxi := yellow_taxi db;
             memory_limit := memory_limit db;
             temp_directory := temp_dir |} in
        unless_raised (execute_set sys "memory_limit" limit) con0 (
        let con :=
          {| yellow_taxi := yellow_taxi db;
             memory_limit := limit;
             temp_directory := temp_dir |} in
        let con1 := (load_csv_to_duckdb fs path con).2 in
        match fetchall con1 (fun t => length t) with
        | Raise _ => returned con1 None
        | Ok _ =>
            if answered_yes answer
            then match main_analytics con1 with
                 | Ok res =>
                     if reports_writable
                     then returned con1 (Some res)
                     else returned con1 None
                 | Raise _ => returned con1 None
                 end
            else returned con1 None
        end)))
  end)).

(** A platform on which none of these calls raises. *)
Definition quiet : platform :=
  {| os_makedirs := fun _ => None;
     duckdb_connect := None;
     execute_set := fun _ _ => None |}.



(** ** Double-precision rows for the evaluator *)

(** The columns of the payment-methods query as the Columnar Store
    holds them: the DOUBLE columns are double-precision floats. *)
Record row64 := {
  payment_type64 : option Z;
  fare_amount64 : option float;
  tip_amount64 : option float
}.

Global Instance row64_columns : PaymentColumns row64 float := {|
  col_key := fun r => (payment_type64 r, payment_desc_of (payment_type64 r));
  col_fare := fare_amount64;
  col_tip := tip_amount64
|}.



(** * Properties *)

(** ** Rational comparisons *)

Lemma Qc_eqb_eq (x y : Qc) : Qc_eqb x y = true ↔ x = y.
Proof.
  unfold Qc_eqb. rewrite Qeq_bool_iff. split.
  - apply Qc_is_canon.
  - intros ->. reflexivity.
Qed.

Lemma Qc_ltb_lt (x y : Qc) : Qc_ltb x y = true ↔ (x < y)%Qc.
Proof.
  unfold Qc_ltb, Qclt. rewrite negb_true_iff, <- not_true_iff_false, Qle_bool_iff.
  split; [apply Qnot_le_lt | apply Qlt_not_le].
Qed.

Lemma Qc_eqb_refl (x : Qc) : Qc_eqb x x = true.
Proof. by apply Qc_eqb_eq. Qed.

(** ** ORDER BY rearranges, GROUP BY partitions *)

Lemma insert_sorted_perm {A} (before : A → A → bool) x l :
  insert_sorted before x l ≡ₚ x :: l.
Proof.
  induction l as [|y l IH]; simpl; [done|].
  destruct (before x y); [done|].
  rewrite IH. apply Permutation_swap.
Qed.

Lemma order_by_perm {A} (before : A → A → bool) l : order_by before l ≡ₚ l.
Proof.
  unfold order_by.
  enough (∀ acc, foldl (fun acc x => insert_sorted before x acc) acc l ≡ₚ acc ++ l)
    as H by apply (H []).
  induction l as [|x l IH]; intros acc; simpl.
  - by rewrite app_nil_r.
  - rewrite IH, insert_sorted_perm. simpl. apply Permutation_middle.
Qed.

Section grouping.
Context {A K : Type} `{EqDecision K} (key : A → K).

Lemma group_by_keys (t : list A) :
  (group_by key t).*1 = remove_dups (key <$> t).
Proof.
  unfold group_by. rewrite <- list_fmap_compose.
  induction (remove_dups (key <$> t)) as [|k ks IH]; simpl; by f_equal.
Qed.

Lemma group_by_rows (t : list A) (g : K * list A) :
  g ∈ group_by key t → g.2 = filter (fun r => key r = g.1) t.
Proof.
  unfold group_by. intros (k & -> & _)%list_elem_of_fmap. done.
Qed.

(** A duplicate-free list of keys that covers the rows splits them:
    the sizes of the groups add up to the number of rows. *)
Lemma group_sizes_cons (ks : list K) (r : A) (t : list A) :
  NoDup ks →
  sum_list ((fun k => length (filter (fun r => key r = k) (r :: t))) <$> ks)
  = ((if decide (key r ∈ ks) then 1 else 0)
     + sum_list ((fun k => length (filter (fun r => key r = k) t)) <$> ks))%nat.
Proof.
  induction 1 as [|k ks Hk Hnd IH].
  - rewrite decide_False by apply not_elem_of_nil. done.
  - cbn [fmap list_fmap sum_list foldr]. rewrite IH, filter_cons.
    destruct (decide (key r = k)) as [Heq|Hne].
    + rewrite (decide_True (P := key r ∈ k :: ks)) by (rewrite Heq; left).
      rewrite (decide_False (P := key r ∈ ks)) by (by rewrite Heq). simpl. lia.
    + destruct (decide (key r ∈ ks)) as [Hin|Hnin].
      * rewrite (decide_True (P := key r ∈ k :: ks)) by (by right). lia.
      * rewrite (decide_False (P := key r ∈ k :: ks)); [lia|].
        by intros [?|?]%elem_of_cons.
Qed.

(** A duplicate-free list of keys that covers the rows splits them:
    the sizes of the groups add up to the number of rows. *)
Lemma group_sizes (ks : list K) (t : list A) :
  NoDup ks → (∀ r, r ∈ t → key r ∈ ks) →
  sum_list ((fun k => length (filter (fun r => key r = k) t)) <$> ks) = length t.
Proof.
  intros Hnd. induction t as [|r t IH]; intros Hin.
  - clear. induction ks as [|k ks IH]; simpl; auto.
  - rewrite group_sizes_cons by done.
    rewrite decide_True by (apply Hin; left).
    rewrite IH by (intros; apply Hin; by right). done.
Qed.

Lemma group_by_counts (t : list A) :
  sum_list ((fun g => COUNT_star g.2) <$> group_by key t) = length t.
Proof.
  unfold group_by, COUNT_star. rewrite <- list_fmap_compose.
  apply (group_sizes (remove_dups (key <$> t)) t).
  - apply NoDup_remove_dups.
  - intros r Hr. apply elem_of_remove_dups, list_elem_of_fmap. eauto.
Qed.
End grouping.

(** ** Grouped aggregation *)

Lemma sum_counts_order_by {X} (count : X → nat) before (l : list X) :
  sum_list (count <$> order_by before l) = sum_list (count <$> l).
Proof. by rewrite order_by_perm. Qed.

(** C4. In every GROUP BY over the whole table (trips by hour, payment
    methods, hour by day) the per-group counts add up to the number of
    rows of the table, whatever the keys are, NULL keys included: no row
    is dropped and none is counted twice. *)
Theorem group_counts_sum_to_row_count (t : table) :
  sum_list ((fun x : hour_tuple => x.1.1.1.1.2) <$> trips_by_hour_query t) = length t
  ∧ sum_list (payment_count <$> payment_methods_query t) = length t
  ∧ sum_list ((fun x : hour_by_day_tuple => x.2) <$> hour_by_day_query t) = length t.
Proof.
  unfold trips_by_hour_query, payment_methods_query, hour_by_day_query.
  rewrite !sum_counts_order_by, <- !list_fmap_compose.
  split_and!.
  - apply (group_by_counts hour_of_day).
  - apply (group_by_counts payment_key).
  - apply (group_by_counts hour_by_day_key).
Qed.

(** A row whose fare is zero gives a NULL ratio, whatever its tip. *)
Lemma tip_ratio_zero_fare (r : row) :
  fare_amount r = Some (Qc_of_Z 0) → tip_ratio r = None.
Proof.
  unfold tip_ratio, NULLIF. intros ->. rewrite Qc_eqb_refl.
  by destruct (tip_amount r).
Qed.

Lemma avg_tip_percentage_skips_zero_fare (rows : list row) :
  avg_tip_percentage rows
  = avg_tip_percentage (filter (fun r => fare_amount r ≠ Some (Qc_of_Z 0)) rows).
Proof.
  unfold avg_tip_percentage, AVG, non_null. f_equal.
  enough (omap id (tip_ratio <$> rows)
          = omap id (tip_ratio <$> filter (fun r => fare_amount r ≠ Some (Qc_of_Z 0)) rows))
    as -> by done.
  induction rows as [|r rows IH]; [done|].
  rewrite filter_cons. case_decide as Hz.
  - rewrite !fmap_cons. cbn [omap list_omap]. by rewrite IH.
  - rewrite fmap_cons. cbn [omap list_omap].
    by rewrite (tip_ratio_zero_fare r Hz).
Qed.

(** C1. In both queries that average [tip_amount / NULLIF(fare_amount, 0)],
    every result row counts all the rows of its group, and its tip
    percentage is the average over the rows of the group whose fare is
    not zero: a zero-fare row adds one to the count and nothing to the
    numerator or the denominator of the ratio average; the query is a
    total function, so no row makes it fail. *)
Theorem ratio_average_excludes_zero_fare (t : table) :
  Forall (fun x : hour_tuple =>
            let '(hour, count, _, _, _, tip_pct) := x in
            let group := filter (fun r => hour_of_day r = hour) t in
            count = length group
            ∧ tip_pct = avg_tip_percentage
                          (filter (fun r => fare_amount r ≠ Some (Qc_of_Z 0)) group))
         (trips_by_hour_query t)
  ∧ Forall (fun x : payment_tuple =>
              let '(payment_id, desc, count, _, _, _, tip_pct) := x in
              let group := filter (fun r => payment_key r = (payment_id, desc)) t in
              count = length group
              ∧ tip_pct = avg_tip_percentage
                            (filter (fun r => fare_amount r ≠ Some (Qc_of_Z 0)) group))
           (payment_methods_query t).
Proof.
  split; apply Forall_forall; intros x Hx.
  - unfold trips_by_hour_query in Hx. rewrite order_by_perm in Hx.
    apply list_elem_of_fmap in Hx as (g & -> & Hg).
    apply group_by_rows in Hg. destruct g as [k rows]; simpl in *. subst rows.
    split; [done|]. apply avg_tip_percentage_skips_zero_fare.
  - unfold payment_methods_query in Hx. rewrite order_by_perm in Hx.
    apply list_elem_of_fmap in Hx as (g & -> & Hg).
    apply group_by_rows in Hg. destruct g as [[k d] rows]; simpl in *. subst rows.
    split; [done|]. apply avg_tip_percentage_skips_zero_fare.
Qed.

(** A zero fare with a tip: both trips are counted, and the tip
    percentage is that of the other trip alone, 5 / 20 = 25%. *)
Example zero_fare_is_counted_not_averaged :
  (fun x : hour_tuple => (x.1.1.1.1.2, this <$> x.2)) <$> trips_by_hour_query zero_fare_trips
  = [(2%nat, Some (25 # 1)%Q)].
Proof. vm_compute. reflexivity. Qed.

(** ** The speed aggregate of the busy-days analysis *)

Lemma Qc_div_pos (x y : Qc) :
  (Qc_of_Z 0 < x)%Qc → (Qc_of_Z 0 < y)%Qc → (Qc_of_Z 0 < x / y)%Qc.
Proof.
  rewrite Z2Qc_inj_0. intros Hx Hy. unfold Qcdiv.
  apply Qcmult_pos_pos; [done|]. by apply Qcinv_pos.
Qed.

Lemma Qc_pos_eqb_0 (x : Qc) : (Qc_of_Z 0 < x)%Qc → Qc_eqb x (Qc_of_Z 0) = false.
Proof.
  intros Hx. apply not_true_iff_false. intros ->%Qc_eqb_eq.
  by apply Qclt_not_eq in Hx.
Qed.

Lemma is_true_and (a b : option bool) :
  is_true (sql_and a b) = true → is_true a = true ∧ is_true b = true.
Proof. by destruct a as [[]|], b as [[]|]. Qed.

(** C10. A row that passes the WHERE clause of the busy-days query
    (drop-off after pick-up, positive distance, more than 60 seconds) has
    a distance and a duration, the duration in hours that divides the
    distance is strictly positive, and so the speed of the row is the
    quotient itself and not a division by zero. *)
Theorem busy_days_speed_divisor_positive (r : row) :
  busy_days_where r = true →
  ∃ d h : Qc,
    trip_distance r = Some d
    ∧ duration_hours r = Some h
    ∧ (Qc_of_Z 0 < h)%Qc
    ∧ speed_mph r = Some (d / h)%Qc.
Proof.
  unfold busy_days_where.
  intros [[_ Hd]%is_true_and Hs]%is_true_and.
  unfold speed_mph, duration_hours.
  destruct (trip_distance r) as [d|]; [|done].
  destruct (duration_seconds r) as [s|]; [|done].
  simpl in Hs. destruct (Qc_ltb (Qc_of_Z 60) s) eqn:H60; [|done].
  apply Qc_ltb_lt in H60.
  assert (Hpos : (Qc_of_Z 0 < s)%Qc).
  { eapply Qclt_trans; [|exact H60]. by apply Z2Qc_inj_lt. }
  assert (Hh : (Qc_of_Z 0 < s / Qc_of_Z 3600)%Qc).
  { apply Qc_div_pos; [done|]. by apply Z2Qc_inj_lt. }
  exists d, (s / Qc_of_Z 3600)%Qc.
  unfold sql_div at 2 3. rewrite (Qc_pos_eqb_0 (Qc_of_Z 3600)) by (by apply Z2Qc_inj_lt).
  unfold sql_div. rewrite (Qc_pos_eqb_0 _ Hh). done.
Qed.

(** ** The three-row scenario *)

(** C3. For every table of three rows whose pick-up hours are 0, 0, 13
    and whose fares are 10, 20, 30, the hour, the count and the average
    fare of the rows returned by the trips-by-hour query are exactly
    (0, 2, 15) and (13, 1, 30), in this order. *)
Theorem three_row_scenario (t : table) :
  hour_of_day <$> t = [Some 0; Some 0; Some 13] →
  fare_amount <$> t = Some <$> (Qc_of_Z <$> [10; 20; 30]) →
  (fun x : hour_tuple => (x.1.1.1.1.1, x.1.1.1.1.2, x.1.1.2)) <$> trips_by_hour_query t
  = [(Some 0, 2%nat, Some (Qc_of_Z 15)); (Some 13, 1%nat, Some (Qc_of_Z 30))].
Proof.
  destruct t as [|r1 [|r2 [|r3 [|]]]]; try done.
  intros [= H1 H2 H3] [= F1 F2 F3].
  unfold trips_by_hour_query, group_by.
  cbn [fmap list_fmap]. rewrite H1, H2, H3.
  change (remove_dups [Some 0; Some 0; Some 13]) with [Some 0; Some 13].
  cbn [fmap list_fmap].
  rewrite !filter_cons, !filter_nil, H1, H2, H3.
  repeat case_decide; simplify_eq.
  unfold order_by, trips_by_hour_select, COUNT_star.
  cbn [foldl insert_sorted fst snd asc fmap list_fmap length].
  change (Z.ltb 13 0) with false. cbn iota.
  rewrite F1, F2, F3. cbn [fmap list_fmap fst snd].
  unfold AVG, non_null. cbn [omap list_omap id].
  repeat f_equal; apply Qc_is_canon; reflexivity.
Qed.

Lemma three_row_scenario_witness :
  (hour_of_day <$> three_rows = [Some 0; Some 0; Some 13]
   ∧ fare_amount <$> three_rows = Some <$> (Qc_of_Z <$> [10; 20; 30]))
  ∧ (fun x : hour_tuple => (x.1.1.1.1.1, x.1.1.1.1.2, x.1.1.2))
      <$> trips_by_hour_query three_rows
    = [(Some 0, 2%nat, Some (Qc_of_Z 15)); (Some 13, 1%nat, Some (Qc_of_Z 30))].
Proof.
  split; [split; reflexivity|].
  apply (three_row_scenario three_rows); reflexivity.
Defined.

Lemma busy_days_speed_divisor_positive_witness :
  busy_days_where (sample_trip (march_2016 1 0 5) 10 1 (dollars 2) (dollars 10) None) = true
  ∧ ∃ d h : Qc,
      trip_distance (sample_trip (march_2016 1 0 5) 10 1 (dollars 2) (dollars 10) None)
      = Some d
      ∧ duration_hours (sample_trip (march_2016 1 0 5) 10 1 (dollars 2) (dollars 10) None)
        = Some h
      ∧ (Qc_of_Z 0 < h)%Qc
      ∧ speed_mph (sample_trip (march_2016 1 0 5) 10 1 (dollars 2) (dollars 10) None)
        = Some (d / h)%Qc.
Proof.
  split; [reflexivity|].
  apply (busy_days_speed_divisor_positive
           (sample_trip (march_2016 1 0 5) 10 1 (dollars 2) (dollars 10) None)).
  reflexivity.
Defined.

(** ** Window functions: the moving average *)

Lemma filter_positions_between {A} (l : list A) (o a b : nat) :
  (filter (fun jx : nat * A => (a ≤ jx.1 < b)%nat) (zip (seq o (length l)) l)).*2
  = take (b - a `max` o) (drop (a - o) l).
Proof.
  revert o. induction l as [|x l IH]; intros o.
  - by rewrite drop_nil, take_nil.
  - cbn [length seq zip zip_with]. rewrite filter_cons. cbn [fst].
    specialize (IH (S o)). case_decide as Hin.
    + rewrite fmap_cons, IH. cbn [snd].
      replace (a - o)%nat with 0%nat by lia.
      replace (a - S o)%nat with 0%nat by lia.
      rewrite !drop_0.
      replace (b - a `max` o)%nat with (S (b - a `max` S o)) by lia.
      done.
    + rewrite IH. destruct (decide (o < a)%nat) as [Hlt|Hge].
      * replace (a - o)%nat with (S (a - S o)) by lia.
        replace (a `max` S o)%nat with (a `max` o)%nat by lia. done.
      * replace (b - a `max` S o)%nat with 0%nat by lia.
        replace (b - a `max` o)%nat with 0%nat by lia. done.
Qed.

Lemma rows_between_positions {A} (p f : nat) (sorted : list A) (i : nat) :
  rows_between p f sorted i
  = (filter (fun jx : nat * A =>
               Z.of_nat i - Z.of_nat p ≤ Z.of_nat jx.1 ≤ Z.of_nat i + Z.of_nat f)
            (indexed sorted)).*2.
Proof.
  unfold rows_between, indexed.
  rewrite (list_filter_iff _ (fun jx : nat * A => (i - p ≤ jx.1 < i + f + 1)%nat))
    by (intros [j x]; simpl; lia).
  rewrite filter_positions_between.
  replace (i - p - 0)%nat with (i - p)%nat by lia.
  replace ((i - p) `max` 0)%nat with (i - p)%nat by lia.
  destruct (decide (i + f + 1 ≤ length sorted)%nat) as [Hle|Hgt].
  - by rewrite Nat.min_l by done.
  - rewrite Nat.min_r by lia.
    rewrite !take_ge; [done | rewrite length_drop; lia | rewrite length_drop; lia].
Qed.

(** C5. Over the rows in their order, the moving average of radius [r] at
    position [i] is the average of the value column over exactly the rows
    whose position [j] satisfies [i - r <= j <= i + r]; positions range
    over the rows that exist, so at the two ends the window is cut short
    and nothing stands in for the missing rows.  With five rows and
    radius 2 the window of row 0 is rows 0 to 2. *)
Theorem moving_average_window_clipped {A} (e : A → option Qc) (r : nat)
    (sorted : list A) (i : nat) :
  moving_avg e r sorted !! i
  = (fun x => (x, AVG (e <$> (filter (fun jx : nat * A =>
                                        Z.of_nat i - Z.of_nat r ≤ Z.of_nat jx.1
                                        ≤ Z.of_nat i + Z.of_nat r)
                                     (indexed sorted)).*2)))
    <$> sorted !! i
  ∧ ∀ a b c d e' : A, rows_between 2 2 [a; b; c; d; e'] 0 = [a; b; c].
Proof.
  split; [|done].
  unfold moving_avg. rewrite list_lookup_imap.
  by rewrite rows_between_positions.
Qed.

(** With five rows and radius 2 the first average is over three rows,
    (10 + 20 + 30) / 3, and not over five. *)
Example moving_average_five_rows :
  (fun x : option Qc * option Qc => this <$> x.2) <$> moving_avg id 2 five_fares
  = [Some (20 # 1); Some (25 # 1); Some (30 # 1); Some (35 # 1); Some (40 # 1)]%Q.
Proof. vm_compute. reflexivity. Qed.

(** ** Window functions: the rank within a day *)

Lemma filter_length_lt {A} (P Q : A → Prop) `{∀ x, Decision (P x)}
    `{∀ x, Decision (Q x)} (l : list A) (y : A) :
  (∀ x, P x → Q x) → y ∈ l → Q y → ¬ P y →
  (length (filter P l) < length (filter Q l))%nat.
Proof.
  intros HPQ Hy HQ HP.
  assert (Hle : ∀ l', (length (filter P l') ≤ length (filter Q l'))%nat).
  { induction l' as [|x l' IH]; [done|]. rewrite !filter_cons.
    destruct (decide (P x)) as [Hx|Hx].
    - rewrite decide_True by auto. simpl. lia.
    - case_decide; simpl; lia. }
  induction Hy as [y l|y x l Hy IH]; rewrite !filter_cons.
  - rewrite decide_False, decide_True by done. specialize (Hle l). simpl. lia.
  - specialize (IH HQ HP).
    destruct (decide (P x)) as [Hx|Hx].
    + rewrite decide_True by auto. simpl. lia.
    + case_decide; simpl; lia.
Qed.

Lemma filter_length_lt_all {A} (P : A → Prop) `{∀ x, Decision (P x)}
    (l : list A) (y : A) :
  y ∈ l → ¬ P y → (length (filter P l) < length l)%nat.
Proof.
  intros Hy HP. induction Hy as [y l|y x l Hy IH]; rewrite filter_cons.
  - rewrite decide_False by done. pose proof (length_filter P l). simpl. lia.
  - specialize (IH HP). case_decide; simpl; lia.
Qed.

Lemma fare_desc_irrefl (r : row) : fare_desc r r = false.
Proof.
  unfold fare_desc, desc. destruct (fare_amount r) as [x|]; [|done].
  apply not_true_iff_false. intros Hx%Qc_ltb_lt. by apply Qclt_not_eq in Hx.
Qed.

Lemma fare_desc_trans (a b c : row) :
  fare_desc a b = true → fare_desc b c = true → fare_desc a c = true.
Proof.
  unfold fare_desc, desc.
  destruct (fare_amount a) as [x|], (fare_amount b) as [y|],
    (fare_amount c) as [z|]; try done.
  rewrite !Qc_ltb_lt. intros Hyx Hzy. by apply Qclt_trans with y.
Qed.

Lemma RANK_within_partition {A K} `{EqDecision K} (partition : A → K)
    (before : A → A → bool) (t : list A) (r : A) :
  RANK partition before t r
  = S (length (filter (fun r' => before r' r)
                 (filter (fun r' => partition r' = partition r) t))).
Proof.
  unfold RANK. f_equal. rewrite list_filter_filter. f_equal.
  apply list_filter_iff. intros x.
  rewrite andb_True, bool_decide_spec. tauto.
Qed.

(** C6 (amended). The rank of a row within its day is one more than the
    number of rows of that day with a strictly greater fare (a NULL fare
    is below every fare): it lies between 1 and the size of the
    partition, rows of the partition with the same fare have the same
    rank, and a row with a greater fare has a strictly smaller rank. *)
Theorem day_fare_rank_shares_ties (t : table) (r : row) :
  r ∈ t →
  let partition := filter (fun r' => pickup_day r' = pickup_day r) t in
  day_fare_rank t r = S (length (filter (fun r' => fare_desc r' r) partition))
  ∧ (1 ≤ day_fare_rank t r ≤ length partition)%nat
  ∧ ∀ r', r' ∈ partition →
      (fare_amount r' = fare_amount r → day_fare_rank t r' = day_fare_rank t r)
      ∧ (fare_desc r' r = true → (day_fare_rank t r' < day_fare_rank t r)%nat).
Proof.
  intros Hr partition. unfold day_fare_rank.
  rewrite RANK_within_partition.
  change (filter (fun r' => pickup_day r' = pickup_day r) t) with partition.
  assert (Hrp : r ∈ partition) by (by apply list_elem_of_filter).
  split_and!; [done|lia| |].
  - apply (filter_length_lt_all (fun r' => fare_desc r' r) partition r); [done|].
    apply Is_true_false_2, fare_desc_irrefl.
  - intros r' [Hday Hr']%list_elem_of_filter. split.
    + intros Hfare. rewrite RANK_within_partition, Hday.
      change (filter (fun r' => pickup_day r' = pickup_day r) t) with partition.
      f_equal. f_equal.
      apply list_filter_iff. intros x. unfold fare_desc. by rewrite Hfare.
    + intros Hbefore. rewrite RANK_within_partition, Hday.
      change (filter (fun r' => pickup_day r' = pickup_day r) t) with partition.
      apply -> Nat.succ_lt_mono.
      apply (filter_length_lt _ _ partition r').
      * intros x Hx. apply Is_true_true. apply Is_true_true in Hx.
        by eapply fare_desc_trans.
      * by apply list_elem_of_filter.
      * by apply Is_true_true.
      * apply Is_true_false_2, fare_desc_irrefl.
Qed.

Lemma day_fare_rank_shares_ties_witness :
  sample_trip (march_2016 1 9 0) 10 1 (dollars 2) (dollars 20) (dollars 1) ∈ tied_fares
  ∧ day_fare_rank tied_fares
      (sample_trip (march_2016 1 9 0) 10 1 (dollars 2) (dollars 20) (dollars 1)) = 1%nat.
Proof.
  assert (Hin : sample_trip (march_2016 1 9 0) 10 1 (dollars 2) (dollars 20) (dollars 1)
                ∈ tied_fares) by (right; left).
  split; [exact Hin|].
  destruct (day_fare_rank_shares_ties tied_fares _ Hin) as [-> _].
  reflexivity.
Defined.

(** C6, as stated, fails: of three trips of the same day with fares 20,
    20 and 10, the two trips at 20 both get rank 1 and the third one gets
    rank 3; the ranks are neither distinct nor the numbers 1 to 3. *)
Lemma rank_ties_not_broken :
  (fun x => (pickup_day (trip x), tr_day_fare_rank x)) <$> trip_ranks tied_fares
  = [(Some 1, 1%nat); (Some 1, 1%nat); (Some 1, 3%nat)].
Proof. vm_compute. reflexivity. Qed.

(** ** Window functions: percentile tiles *)

Section ntile.
Local Open Scope nat_scope.

Lemma div_between (i d q : nat) :
  0 < d → i / d = q ↔ d * q ≤ i < d * (q + 1).
Proof.
  intros Hd. pose proof (Nat.div_mod_eq i d) as Hi.
  pose proof (Nat.mod_upper_bound i d) as Hm.
  split.
  - intros <-. nia.
  - intros [Hlo Hhi]. symmetry. apply (Nat.div_unique i d q (i - d * q)); lia.
Qed.

(** The shape of the buckets: [m] buckets in use, [s] rows in a small
    bucket, [l] large buckets of [s + 1] rows. *)
Lemma ntile_shape (T n : nat) :
  0 < T → 0 < n →
  let m := T `min` n in
  let s := n / m in
  let l := n - m * s in
  0 < m ∧ m ≤ T ∧ 0 < s ∧ l = n `mod` m ∧ l < m ∧ n = l * (s + 1) + (m - l) * s.
Proof.
  intros HT Hn m s l.
  assert (Hm : 0 < m) by (unfold m; lia).
  pose proof (Nat.div_mod_eq n m) as Hdiv.
  pose proof (Nat.mod_upper_bound n m) as Hmod.
  assert (Hs : 0 < s).
  { apply Nat.div_str_pos. unfold m. lia. }
  assert (Hl : l = n `mod` m) by (unfold l, s; lia).
  split_and!; try done; try (unfold m; lia); try lia.
Qed.

Lemma NTILE_bucket (T n i b : nat) :
  0 < T → i < n → 1 ≤ b →
  let m := T `min` n in
  let s := n / m in
  let l := n `mod` m in
  NTILE T n i = b ↔ bucket_start s l b ≤ i < bucket_start s l b + bucket_size s l b.
Proof.
  intros HT Hi Hb m s l.
  destruct (ntile_shape T n) as (Hm & HmT & Hs & Hl & Hlm & Hn); [lia..|].
  fold m s in Hl, Hlm, Hn, Hs. rewrite Hl in Hn. fold l in Hlm, Hn.
  unfold NTILE. fold m s. rewrite Hl. fold l.
  unfold bucket_start, bucket_size.
  destruct b as [|k]; [lia|]. clear Hb.
  replace (S k - 1) with k by lia.
  destruct (Nat.ltb_spec i (l * (s + 1))) as [Hlt|Hge].
  - assert (Hq : i / (s + 1) < l).
    { apply Nat.Div0.div_lt_upper_bound. lia. }
    case_decide as Hbl.
    + destruct (div_between i (s + 1) k) as [Hq1 Hq2]; [lia|].
      split.
      * intros Heq. specialize (Hq1 ltac:(lia)). lia.
      * intros Hint. assert (i / (s + 1) = k) by (apply Hq2; lia). lia.
    + pose proof (Nat.le_0_l ((k - l) * s)). split; [lia|lia].
  - case_decide as Hbl.
    + assert (S k * (s + 1) ≤ l * (s + 1)) by (apply Nat.mul_le_mono_r; lia).
      split; [lia|lia].
    + destruct (div_between (i - l * (s + 1)) s (k - l)) as [Hq1 Hq2]; [lia|].
      split.
      * intros Heq. specialize (Hq1 ltac:(lia)). lia.
      * intros Hint.
        assert ((i - l * (s + 1)) / s = k - l) by (apply Hq2; lia). lia.
Qed.
End ntile.

Section sorting.
Context {A : Type} (before : A → A → bool).
Hypothesis before_irrefl : ∀ x, before x x = false.
Hypothesis before_trans :
  ∀ x y z, before x y = true → before y z = true → before x z = true.

Lemma before_asym x y : before x y = true → before y x = false.
Proof.
  intros Hxy. destruct (before y x) eqn:Hyx; [|done].
  by rewrite <- (before_irrefl x), <- (before_trans x y x Hxy Hyx).
Qed.

Lemma insert_sorted_sorted x l :
  StronglySorted (not_after before) l → StronglySorted (not_after before) (insert_sorted before x l).
Proof.
  induction 1 as [|y l Hl IH Hy]; simpl.
  - repeat constructor.
  - destruct (before x y) eqn:Hxy.
    + constructor; [by constructor|]. constructor.
      * by apply before_asym.
      * eapply Forall_impl; [exact Hy|]. intros z Hz. unfold not_after in *.
        destruct (before z x) eqn:Hzx; [|done].
        by rewrite <- Hz, <- (before_trans z x y Hzx Hxy).
    + constructor; [done|]. rewrite insert_sorted_perm. by constructor.
Qed.

Lemma order_by_sorted l : StronglySorted (not_after before) (order_by before l).
Proof.
  unfold order_by.
  enough (∀ acc, StronglySorted (not_after before) acc →
                 StronglySorted (not_after before)
                   (foldl (fun acc x => insert_sorted before x acc) acc l))
    as H by (apply H; constructor).
  induction l as [|x l IH]; intros acc Hacc; simpl; [done|].
  by apply IH, insert_sorted_sorted.
Qed.
End sorting.

Lemma asc_Qc_irrefl {A} (key : A → option Qc) (x : A) :
  asc Qc_ltb (key x) (key x) = false.
Proof.
  unfold asc. destruct (key x) as [q|]; [|done].
  apply not_true_iff_false. intros Hq%Qc_ltb_lt. by apply Qclt_not_eq in Hq.
Qed.

Lemma asc_Qc_trans {A} (key : A → option Qc) (x y z : A) :
  asc Qc_ltb (key x) (key y) = true → asc Qc_ltb (key y) (key z) = true →
  asc Qc_ltb (key x) (key z) = true.
Proof.
  unfold asc. destruct (key x) as [a|], (key y) as [b|], (key z) as [c|]; try done.
  rewrite !Qc_ltb_lt. apply Qclt_trans.
Qed.

Section counting.
Local Open Scope nat_scope.

Lemma length_filter_fmap {A B} (f : A → B) (P : B → Prop)
    {HP : ∀ y, Decision (P y)} (l : list A) :
  length (filter P (f <$> l)) = length (filter (fun x => P (f x)) l).
Proof.
  induction l as [|x l IH]; [done|].
  rewrite fmap_cons, !filter_cons. case_decide; simpl; by rewrite IH.
Qed.

Lemma length_filter_snd {A} (b : nat) (l : list (A * nat)) :
  length (filter (fun x : A * nat => x.2 = b) l)
  = length (filter (fun y => y = b) l.*2).
Proof.
  induction l as [|x l IH]; [done|].
  rewrite fmap_cons, !filter_cons. case_decide; simpl; by rewrite IH.
Qed.

Lemma filter_iff_elem_of {A} (P Q : A → Prop) `{∀ x, Decision (P x)}
    `{∀ x, Decision (Q x)} (l : list A) :
  (∀ x, x ∈ l → P x ↔ Q x) → filter P l = filter Q l.
Proof.
  induction l as [|x l IH]; intros Hl; [done|].
  rewrite !filter_cons, IH by (intros; apply Hl; by right).
  destruct (decide (P x)) as [Hx|Hx].
  - rewrite decide_True; [done|]. apply Hl; [left|done].
  - rewrite decide_False; [done|]. intros HQ. apply Hx, Hl; [left|done].
Qed.

Lemma length_filter_interval (a d o k : nat) :
  length (filter (fun i => a ≤ i < a + d) (seq o k))
  = (a + d) `min` (o + k) - a `max` o.
Proof.
  revert o. induction k as [|k IH]; intros o; [simpl; lia|].
  cbn [seq]. rewrite filter_cons. specialize (IH (S o)).
  case_decide; simpl; lia.
Qed.
End counting.

Section tiles.
Local Open Scope nat_scope.

Lemma ntile_over_fst {A} (T : nat) (l : list A) : (ntile_over T l).*1 = l.
Proof.
  unfold ntile_over. rewrite fmap_imap.
  change (imap (fun _ (x : A) => x) l = l).
  by rewrite (imap_const id), list_fmap_id.
Qed.

Lemma ntile_over_snd {A} (T : nat) (l : list A) :
  (ntile_over T l).*2 = NTILE T (length l) <$> seq 0 (length l).
Proof.
  unfold ntile_over. rewrite fmap_imap.
  apply (imap_seq_0 l (NTILE T (length l))).
Qed.

Lemma NTILE_mono (T n i j : nat) : i ≤ j → NTILE T n i ≤ NTILE T n j.
Proof.
  intros Hij. unfold NTILE.
  set (s := n / T `min` n). set (l := n - T `min` n * s).
  destruct (Nat.ltb_spec i (l * (s + 1))) as [Hi|Hi],
           (Nat.ltb_spec j (l * (s + 1))) as [Hj|Hj]; try lia.
  - pose proof (Nat.Div0.div_le_mono i j (s + 1) Hij). lia.
  - assert (i / (s + 1) < l) by (apply Nat.Div0.div_lt_upper_bound; lia). lia.
  - pose proof (Nat.Div0.div_le_mono (i - l * (s + 1)) (j - l * (s + 1)) s). lia.
Qed.

Lemma bucket_end (T n b : nat) :
  0 < T → 1 ≤ b ≤ T `min` n →
  let s := n / T `min` n in
  let l := n `mod` (T `min` n) in
  bucket_start s l b + bucket_size s l b ≤ n.
Proof.
  intros HT Hb s l.
  destruct (ntile_shape T n) as (Hm & HmT & Hs & Hl & Hlm & Hn); [lia..|].
  fold s in Hl, Hlm, Hn, Hs. rewrite Hl in Hn, Hlm. fold l in Hlm, Hn.
  unfold bucket_start, bucket_size. case_decide as Hbl.
  - assert (b * (s + 1) ≤ l * (s + 1)) by (by apply Nat.mul_le_mono_r).
    destruct b as [|k]; [lia|]. replace (S k - 1) with k by lia.
    pose proof (Nat.le_0_l ((T `min` n - l) * s)). lia.
  - assert ((b - l) * s ≤ (T `min` n - l) * s) by (apply Nat.mul_le_mono_r; lia).
    replace (b - 1 - l) with (b - l - 1) by lia.
    destruct (b - l) as [|k] eqn:Hk; [lia|].
    replace (S k - 1) with k by lia. lia.
Qed.

Lemma NTILE_range (T n i : nat) :
  0 < T → i < n → 1 ≤ NTILE T n i ≤ T `min` n.
Proof.
  intros HT Hi.
  assert (H1 : 1 ≤ NTILE T n i).
  { unfold NTILE. case_match; lia. }
  split; [done|].
  destruct (decide (NTILE T n i ≤ T `min` n)) as [|Hgt]; [done|exfalso].
  destruct (NTILE_bucket T n i (NTILE T n i) HT Hi H1) as [Hb _].
  specialize (Hb eq_refl). cbv zeta in Hb.
  destruct (ntile_shape T n) as (Hm & HmT & Hs & Hl & Hlm & Hn); [lia..|].
  rewrite Hl in Hn, Hlm.
  set (s := n / T `min` n) in *. set (l := n `mod` (T `min` n)) in *.
  unfold bucket_start, bucket_size in Hb.
  rewrite !decide_False in Hb by lia.
  assert ((T `min` n - l) * s ≤ (NTILE T n i - 1 - l) * s)
    by (apply Nat.mul_le_mono_r; lia).
  lia.
Qed.

Lemma ntile_bucket_count {A} (T : nat) (l : list A) (b : nat) :
  0 < T → 1 ≤ b ≤ T `min` length l →
  length (filter (fun x : A * nat => x.2 = b) (ntile_over T l))
  = length l / T `min` length l
    + (if decide (b ≤ length l `mod` (T `min` length l)) then 1 else 0).
Proof.
  intros HT Hb.
  rewrite length_filter_snd, ntile_over_snd, length_filter_fmap.
  rewrite (filter_iff_elem_of _
             (fun i => bucket_start (length l / T `min` length l)
                         (length l `mod` (T `min` length l)) b ≤ i
                       < bucket_start (length l / T `min` length l)
                           (length l `mod` (T `min` length l)) b
                         + bucket_size (length l / T `min` length l)
                             (length l `mod` (T `min` length l)) b)).
  - rewrite length_filter_interval.
    pose proof (bucket_end T (length l) b HT Hb) as Hend. cbv zeta in Hend.
    unfold bucket_size in *. case_decide; lia.
  - intros i Hi%elem_of_seq. apply NTILE_bucket; lia.
Qed.
End tiles.

(** C7 (amended). [NTILE(T) OVER (ORDER BY key)], for [T > 0] and [N]
    rows: the rows are put in ascending order of the key (NULLs last),
    the row at position [i] gets the index [NTILE T N i], every index lies
    between 1 and [min T N], indexes do not decrease along the order, and
    bucket [b] holds [N / m] rows, plus one when [b <= N mod m], where
    [m = min T N]: the bucket sizes differ by at most one and are equal
    exactly when the remainder is zero. *)
Theorem percentile_tile_buckets {A} (key : A → option Qc) (T : nat) (rows : list A) :
  (0 < T)%nat →
  let n := length rows in
  let m := (T `min` n)%nat in
  (percentile_tile key T rows).*1 ≡ₚ rows
  ∧ StronglySorted (not_after (fun a b => asc Qc_ltb (key a) (key b)))
      (percentile_tile key T rows).*1
  ∧ (percentile_tile key T rows).*2 = NTILE T n <$> seq 0 n
  ∧ Forall (fun x : A * nat => (1 ≤ x.2 ≤ m)%nat) (percentile_tile key T rows)
  ∧ (∀ i j, (i ≤ j)%nat → (NTILE T n i ≤ NTILE T n j)%nat)
  ∧ (∀ b, (1 ≤ b ≤ m)%nat →
       length (filter (fun x : A * nat => x.2 = b) (percentile_tile key T rows))
       = (n / m + (if decide (b ≤ n `mod` m)%nat then 1 else 0))%nat).
Proof.
  intros HT n m. unfold percentile_tile.
  assert (Hlen : ∀ before : A → A → bool, length (order_by before rows) = n)
    by (intros; by rewrite order_by_perm).
  split_and!.
  - by rewrite ntile_over_fst, order_by_perm.
  - rewrite ntile_over_fst. apply order_by_sorted.
    + intros x. apply asc_Qc_irrefl.
    + intros x y z. apply asc_Qc_trans.
  - by rewrite ntile_over_snd, Hlen.
  - apply Forall_fmap with (f := snd) (P := fun b => (1 ≤ b ≤ m)%nat).
    rewrite ntile_over_snd, Hlen. apply Forall_fmap, Forall_forall.
    intros i Hi%elem_of_seq. simpl. apply NTILE_range; lia.
  - intros i j. apply NTILE_mono.
  - intros b Hb. rewrite ntile_bucket_count by (rewrite ?Hlen; done).
    by rewrite !Hlen.
Qed.

Lemma percentile_tile_buckets_witness :
  (0 < 2)%nat ∧ (percentile_tile trip_distance 2 three_rows).*2 = [1; 1; 2]%nat.
Proof.
  split; [lia|].
  destruct (percentile_tile_buckets trip_distance 2 three_rows) as (_ & _ & -> & _);
    [lia|].
  reflexivity.
Defined.

(** C7, as stated, fails: [NTILE(100)] over 101 trips puts two trips in
    bucket 1 and one trip in bucket 2; the buckets are not of equal size. *)
Lemma ntile_buckets_not_equal :
  let tiles := distance_percentile <$> trip_ranks hundred_one_trips in
  (fun b => length (filter (fun x => x = b) tiles)) <$> [1; 2; 100]%nat
  = [2; 1; 1]%nat.
Proof. vm_compute. reflexivity. Qed.

(** ** Ingestion *)

(** C8 (amended). When the load fails, the file could not be read, the
    reported row count is 0 and the connection holds no table at all:
    nothing partial was created, and the table that existed before was
    dropped by the first statement and is not restored. *)
Theorem failed_load_leaves_no_table (fs : gmap string table) (csv_file : string)
    (con : connection) :
  (load_csv_to_duckdb fs csv_file con).1.1 = false →
  fs !! csv_file = None
  ∧ (load_csv_to_duckdb fs csv_file con).1.2 = 0%nat
  ∧ yellow_taxi (load_csv_to_duckdb fs csv_file con).2 = None
  ∧ memory_limit (load_csv_to_duckdb fs csv_file con).2 = memory_limit con
  ∧ temp_directory (load_csv_to_duckdb fs csv_file con).2 = temp_directory con.
Proof.
  unfold load_csv_to_duckdb, create_table_as_read_csv. simpl.
  destruct (fs !! csv_file) as [t|]; simpl; [discriminate|done].
Qed.

Lemma failed_load_leaves_no_table_witness :
  (load_csv_to_duckdb ∅ "unreadable.csv" (connect (Some three_rows))).1.1 = false
  ∧ yellow_taxi (load_csv_to_duckdb ∅ "unreadable.csv" (connect (Some three_rows))).2 = None.
Proof.
  split; [reflexivity|].
  apply (failed_load_leaves_no_table ∅ "unreadable.csv" (connect (Some three_rows))).
  reflexivity.
Defined.


(** A load that succeeds replaces the table by the rows of the file and
    reports their number. *)
Lemma load_success (fs : gmap string table) (csv_file : string) (con : connection)
    (t : table) :
  fs !! csv_file = Some t →
  load_csv_to_duckdb fs csv_file con = (true, length t, with_table con (Some t)).
Proof.
  intros Hf. unfold load_csv_to_duckdb, create_table_as_read_csv.
  by rewrite Hf.
Qed.

(** C8, as stated, fails: a load that cannot open its file reports
    failure with 0 rows, and the three rows that were in [yellow_taxi]
    before the call are gone. *)
Lemma failed_load_destroys_previous_table :
  yellow_taxi (connect (Some three_rows)) = Some three_rows
  ∧ (load_csv_to_duckdb ∅ "unreadable.csv" (connect (Some three_rows))).1 = (false, 0%nat)
  ∧ yellow_taxi (load_csv_to_duckdb ∅ "unreadable.csv" (connect (Some three_rows))).2 = None.
Proof. split_and!; reflexivity. Qed.

(** ** Failure reporting *)




(** ** Groups *)

Lemma group_nonempty {A K} `{EqDecision K} (key : A → K) (t : list A) (k : K) :
  k ∈ key <$> t ↔ filter (fun r => key r = k) t ≠ [].
Proof.
  rewrite list_elem_of_fmap. split.
  - intros (r & -> & Hr) Hnil.
    assert (r ∈ filter (fun r' => key r' = key r) t) as Hin
      by (by apply list_elem_of_filter).
    rewrite Hnil in Hin. by apply not_elem_of_nil in Hin.
  - destruct (filter _ t) as [|r rows] eqn:Hf; [done|]. intros _.
    assert (r ∈ filter (fun r => key r = k) t) as Hin by (rewrite Hf; left).
    apply list_elem_of_filter in Hin as [Hk Hin]. eauto.
Qed.

Lemma elem_of_group_by {A K} `{EqDecision K} (key : A → K) (t : list A) g :
  g ∈ group_by key t ↔ g.1 ∈ key <$> t ∧ g.2 = filter (fun r => key r = g.1) t.
Proof.
  unfold group_by. rewrite list_elem_of_fmap. setoid_rewrite elem_of_remove_dups.
  split.
  - intros (k & -> & Hk). done.
  - intros [Hk Hg]. exists g.1. split; [|done]. destruct g. simpl in *. by subst.
Qed.

(** ** The evaluator under a memory budget *)

Section evaluator_facts.
Context {R V : Type} `{Number V} `{PaymentColumns R V}.

Lemma lookup_merge_maps (m1 m2 : gmap (option Z * string) (accumulator V)) k :
  merge_maps m1 m2 !! k
  = union_with (fun a b => Some (acc_merge a b)) (m1 !! k) (m2 !! k).
Proof. unfold merge_maps. apply lookup_union_with. Qed.

Lemma merge_all_spill (st : evaluator V) : merge_all (spill st) = merge_all st.
Proof.
  unfold merge_all, spill. simpl. apply map_eq. intros k.
  rewrite lookup_merge_maps, lookup_empty. by destruct (_ !! k).
Qed.

(** *** A quantity that merging combines

    [h] reads a quantity off an accumulator; updating and merging
    combine it with an operation [op] that is associative and
    commutative.  Then the quantity of the merged accumulators of a key
    depends on the rows of the key only, not on the ceiling nor on where
    the spills fell. *)
Section measured.
Context {M : Type} (h : accumulator V → M) (op : M → M → M) (unit : M)
  (one : R → M).
Hypothesis op_comm : ∀ x y, op x y = op y x.
Hypothesis op_assoc : ∀ x y z, op x (op y z) = op (op x y) z.
Hypothesis op_unit_l : ∀ x, op unit x = x.
Hypothesis h_empty : h acc_empty = unit.
Hypothesis h_update : ∀ a r, h (acc_update a r) = op (h a) (one r).
Hypothesis h_merge : ∀ a b, h (acc_merge a b) = op (h a) (h b).

Lemma measured_merge_maps (m1 m2 : gmap (option Z * string) (accumulator V)) k :
  h <$> merge_maps m1 m2 !! k
  = union_with (fun a b => Some (op a b)) (h <$> m1 !! k) (h <$> m2 !! k).
Proof.
  rewrite lookup_merge_maps.
  destruct (m1 !! k), (m2 !! k); simpl; by rewrite ?h_merge.
Qed.

Lemma measured_install (st : evaluator V) k0 (r : R) b k :
  resident st !! k0 = None →
  h <$> merge_all (install k0 r b st) !! k
  = if decide (k = k0) then absorb op unit one (h <$> merge_all st !! k) r
    else h <$> merge_all st !! k.
Proof.
  intros Hnone. unfold merge_all, install. simpl.
  rewrite !measured_merge_maps. case_decide as Hk.
  - subst k. rewrite lookup_insert_eq, Hnone. unfold absorb. simpl.
    rewrite h_update, h_empty, op_unit_l.
    destruct (h <$> foldr merge_maps ∅ (segments st) !! k0) as [x|]; simpl.
    + by rewrite op_comm.
    + by rewrite op_unit_l.
  - by rewrite lookup_insert_ne.
Qed.

Lemma measured_scan_row (entry_bytes : nat) (st st' : evaluator V) (r : R) k :
  scan_row entry_bytes st r = Some st' →
  h <$> merge_all st' !! k
  = if decide (k = col_key r) then absorb op unit one (h <$> merge_all st !! k) r
    else h <$> merge_all st !! k.
Proof.
  unfold scan_row. destruct (resident st !! col_key r) as [a|] eqn:Hres.
  - intros [= <-]. unfold merge_all. simpl. rewrite !measured_merge_maps.
    case_decide as Hk.
    + subst k. rewrite lookup_insert_eq, Hres. unfold absorb. simpl.
      rewrite h_update.
      destruct (h <$> foldr merge_maps ∅ (segments st) !! col_key r) as [x|]; simpl;
        [|done].
      by rewrite <- !op_assoc, (op_comm (one r)).
    + by rewrite lookup_insert_ne.
  - destruct (reserve entry_bytes (controller st)) as [b|].
    + intros [= <-]. by apply measured_install.
    + destruct (reserve entry_bytes (controller (spill st))) as [b|]; [|done].
      intros [= <-]. rewrite measured_install by done. by rewrite merge_all_spill.
Qed.

Lemma measured_scan (entry_bytes : nat) (t : list R) (st st' : evaluator V) k :
  scan entry_bytes st t = Some st' →
  h <$> merge_all st' !! k
  = foldl (absorb op unit one) (h <$> merge_all st !! k)
      (filter (fun r => col_key r = k) t).
Proof.
  revert st. induction t as [|r t IH]; intros st Hscan.
  - by injection Hscan as <-.
  - cbn [scan] in Hscan.
    destruct (scan_row entry_bytes st r) as [st1|] eqn:Hrow; simpl in Hscan; [|done].
    rewrite (IH st1 Hscan), (measured_scan_row _ _ _ _ _ Hrow).
    rewrite filter_cons. destruct (decide (col_key r = k)) as [<-|Hne].
    + by rewrite decide_True.
    + by rewrite decide_False.
Qed.

Lemma foldl_absorb (o : option M) (rows : list R) :
  foldl (absorb op unit one) o rows
  = match rows with
    | [] => o
    | _ => Some (foldl (fun m r => op m (one r)) (default unit o) rows)
    end.
Proof.
  revert o. induction rows as [|r rows IH]; intros o; [done|].
  simpl. rewrite IH. by destruct rows.
Qed.

Lemma measured_start (ceiling_bytes entry_bytes : nat) (t : list R) st k :
  scan entry_bytes (evaluator_start ceiling_bytes) t = Some st →
  h <$> merge_all st !! k
  = match filter (fun r => col_key r = k) t with
    | [] => None
    | rows => Some (measure op unit one rows)
    end.
Proof.
  intros Hscan. rewrite (measured_scan _ _ _ _ _ Hscan), foldl_absorb.
  by destruct (filter _ t).
Qed.
End measured.

(** *** The groups, their counts and their NULLs, whatever the numbers *)










(** *** The evaluator finishes when one accumulator fits *)

Lemma scan_row_total (entry_bytes : nat) (st : evaluator V) (r : R) :
  (entry_bytes ≤ ceiling (controller st))%nat →
  ∃ st', scan_row entry_bytes st r = Some st'
         ∧ ceiling (controller st') = ceiling (controller st).
Proof.
  intros Hfit. unfold scan_row.
  destruct (resident st !! col_key r); [eauto|].
  destruct (reserve entry_bytes (controller st)) as [b|] eqn:Hres.
  - eexists. split; [done|]. simpl.
    unfold reserve in Hres. case_match; [|done]. by injection Hres as <-.
  - unfold reserve, spill, release. simpl.
    rewrite Nat.sub_diag. simpl.
    destruct (Nat.leb_spec entry_bytes (ceiling (controller st))); [eauto|lia].
Qed.

Lemma scan_total (entry_bytes : nat) (t : list R) (st : evaluator V) :
  (entry_bytes ≤ ceiling (controller st))%nat →
  is_Some (scan entry_bytes st t).
Proof.
  revert st. induction t as [|r t IH]; intros st Hfit; [by eexists|].
  destruct (scan_row_total entry_bytes st r Hfit) as (st' & Hrow & Hceil).
  cbn [scan]. rewrite Hrow. simpl. apply IH. by rewrite Hceil.
Qed.

Lemma aggregate_within_total (ceiling_bytes entry_bytes : nat) (t : list R) :
  (entry_bytes ≤ ceiling_bytes)%nat →
  is_Some (aggregate_within ceiling_bytes entry_bytes t).
Proof.
  intros Hfit. unfold aggregate_within.
  destruct (scan_total entry_bytes t (evaluator_start ceiling_bytes) Hfit)
    as [st ->].
  by eexists.
Qed.

(** *** With exact sums, accumulators form a commutative monoid under
    merge *)

Section exact_sums.
Context `{!ExactSum V}.

Lemma cell_merge_comm (a b : cell V) : cell_merge a b = cell_merge b a.
Proof. unfold cell_merge. f_equal; [apply num_add_comm|lia]. Qed.

Lemma cell_merge_assoc (a b c : cell V) :
  cell_merge a (cell_merge b c) = cell_merge (cell_merge a b) c.
Proof. unfold cell_merge. simpl. f_equal; [apply num_add_assoc|lia]. Qed.

Lemma cell_merge_empty_l (a : cell V) : cell_merge cell_empty a = a.
Proof. destruct a. unfold cell_merge. simpl. by rewrite num_add_0_l. Qed.

Lemma cell_update_merge (a : cell V) (v : option V) :
  cell_update a v = cell_merge a (cell_update cell_empty v).
Proof.
  destruct a as [s n], v as [x|]; unfold cell_merge; simpl.
  - rewrite num_add_0_l. f_equal. lia.
  - rewrite num_add_comm, num_add_0_l. f_equal. lia.
Qed.

Lemma acc_merge_comm (a b : accumulator V) : acc_merge a b = acc_merge b a.
Proof.
  unfold acc_merge. f_equal; [lia|apply cell_merge_comm..].
Qed.

Lemma acc_merge_assoc (a b c : accumulator V) :
  acc_merge a (acc_merge b c) = acc_merge (acc_merge a b) c.
Proof.
  unfold acc_merge. simpl. f_equal; [lia|apply cell_merge_assoc..].
Qed.

Lemma acc_merge_empty_l (a : accumulator V) : acc_merge acc_empty a = a.
Proof.
  destruct a. unfold acc_merge. simpl. by rewrite !cell_merge_empty_l.
Qed.

Lemma acc_update_merge (a : accumulator V) (r : R) :
  acc_update a r = acc_merge a (acc_update acc_empty r).
Proof.
  unfold acc_update, acc_merge. simpl.
  f_equal; [lia|apply cell_update_merge..].
Qed.

Lemma measure_acc_of (rows : list R) :
  measure acc_merge acc_empty (acc_update acc_empty) rows = acc_of rows.
Proof.
  unfold measure, acc_of.
  enough (∀ a : accumulator V,
            foldl (fun m r => acc_merge m (acc_update acc_empty r)) a rows
            = foldl acc_update a rows) as Ha by apply Ha.
  induction rows as [|r rows IH]; intros a; [done|].
  simpl. by rewrite IH, <- acc_update_merge.
Qed.

(** The merged accumulators depend on the rows only, not on the ceiling
    nor on where the spills fell. *)
Lemma merge_all_start (ceiling_bytes entry_bytes : nat) (t : list R) st k :
  scan entry_bytes (evaluator_start ceiling_bytes) t = Some st →
  merge_all st !! k
  = match filter (fun r => col_key r = k) t with
    | [] => None
    | rows => Some (acc_of rows)
    end.
Proof.
  intros Hscan. rewrite <- (option_fmap_id (merge_all st !! k)).
  rewrite (measured_start id acc_merge acc_empty (acc_update acc_empty)
             acc_merge_comm acc_merge_assoc acc_merge_empty_l eq_refl
             acc_update_merge (fun a b => eq_refl) _ _ _ _ _ Hscan).
  destruct (filter _ t) as [|r rows] eqn:Hf; [done|]. by rewrite measure_acc_of.
Qed.

Lemma merged_groups (ceiling_bytes entry_bytes : nat) (t : list R) st :
  scan entry_bytes (evaluator_start ceiling_bytes) t = Some st →
  map_to_list (merge_all st)
  ≡ₚ (fun g : option Z * string * list R => (g.1, acc_of g.2))
     <$> group_by col_key t.
Proof.
  intros Hscan. apply NoDup_Permutation.
  - apply NoDup_map_to_list.
  - unfold group_by. rewrite <- list_fmap_compose.
    apply NoDup_fmap_2; [|apply NoDup_remove_dups].
    intros k1 k2 Heq. by injection Heq.
  - intros [k a]. rewrite elem_of_map_to_list, (merge_all_start _ _ _ _ _ Hscan).
    unfold group_by. rewrite <- list_fmap_compose, list_elem_of_fmap.
    setoid_rewrite elem_of_remove_dups. setoid_rewrite (group_nonempty col_key).
    split.
    + destruct (filter _ t) as [|r rows] eqn:Hf; [done|].
      intros [= <-]. exists k. simpl. rewrite Hf. done.
    + intros (k' & [= -> ->] & Hne). simpl in *.
      by destruct (filter _ t).
Qed.

(** With exact sums the result rows are the finalized accumulators of
    the groups of GROUP BY, whatever the ceiling. *)
Lemma aggregate_within_exact (ceiling_bytes entry_bytes : nat) (t : list R)
    (rows : list (payment_result V)) spills :
  aggregate_within ceiling_bytes entry_bytes t = Some (rows, spills) →
  rows ≡ₚ (fun g : option Z * string * list R => acc_finalize g.1 (acc_of g.2))
          <$> group_by col_key t.
Proof.
  unfold aggregate_within.
  destruct (scan _ _ t) as [st|] eqn:Hscan; simpl; [|done].
  intros [= <- _]. rewrite order_by_perm, (merged_groups _ _ _ _ Hscan).
  by rewrite <- list_fmap_compose.
Qed.
End exact_sums.
End evaluator_facts.

(** *** On exact rationals the evaluator computes the query of the source *)

Lemma Qc_plus_0_l (x : Qc) : (Qc_of_Z 0 + x)%Qc = x.
Proof. rewrite Z2Qc_inj_0. apply Qcplus_0_l. Qed.

Lemma Qc_exact_sum : ExactSum Qc.
Proof.
  split.
  - apply Qcplus_comm.
  - apply Qcplus_assoc.
  - apply Qc_plus_0_l.
Qed.

Lemma col_ratio_tip_ratio (r : row) : col_ratio r = tip_ratio r.
Proof.
  unfold col_ratio, tip_ratio, sql_div, NULLIF. simpl.
  destruct (tip_amount r) as [x|], (fare_amount r) as [y|]; try done.
  by destruct (Qc_eqb y (Qc_of_Z 0)) eqn:Hy; [|rewrite Hy].
Qed.

Lemma foldl_cell_update (c : cell Qc) (xs : list (option Qc)) :
  foldl cell_update c xs
  = {| cell_sum := (cell_sum c + Qc_sum (non_null xs))%Qc;
       cell_count := (cell_count c + length (non_null xs))%nat |}.
Proof.
  revert c. unfold non_null, Qc_sum.
  induction xs as [|[x|] xs IH]; intros [s n]; cbn [foldl omap list_omap foldr length].
  - simpl. rewrite Z2Qc_inj_0, Qcplus_0_r. f_equal. lia.
  - rewrite IH. cbn [id cell_update cell_sum cell_count foldr length num_add exact].
    f_equal; [by rewrite Qcplus_assoc|lia].
  - rewrite IH. done.
Qed.

Lemma cell_avg_AVG (xs : list (option Qc)) :
  cell_avg (foldl cell_update cell_empty xs) = AVG xs.
Proof.
  rewrite foldl_cell_update. unfold cell_avg, AVG. simpl.
  destruct (non_null xs) as [|v vs]; [done|].
  cbn [length]. by rewrite Qc_plus_0_l.
Qed.

Lemma cell_total_SUM (xs : list (option Qc)) :
  cell_total (foldl cell_update cell_empty xs) = SUM xs.
Proof.
  rewrite foldl_cell_update. unfold cell_total, SUM. simpl.
  destruct (non_null xs) as [|v vs]; [done|].
  cbn [length]. by rewrite Qc_plus_0_l.
Qed.

Lemma foldl_acc_update (a : accumulator Qc) (rows : list row) :
  foldl acc_update a rows
  = {| acc_rows := (acc_rows a + length rows)%nat;
       acc_fare := foldl cell_update (acc_fare a) (fare_amount <$> rows);
       acc_tip := foldl cell_update (acc_tip a) (tip_amount <$> rows);
       acc_ratio := foldl cell_update (acc_ratio a) (tip_ratio <$> rows) |}.
Proof.
  revert a. induction rows as [|r rows IH]; intros a.
  - destruct a. simpl. f_equal. lia.
  - cbn [foldl]. rewrite IH. unfold acc_update at 1 2 3 4. simpl.
    rewrite col_ratio_tip_ratio. f_equal. lia.
Qed.

Lemma acc_finalize_select (k : option Z * string) (rows : list row) :
  acc_finalize k (acc_of rows) = payment_select (k, rows).
Proof.
  unfold acc_of. rewrite foldl_acc_update.
  unfold acc_finalize, payment_select, avg_tip_percentage, COUNT_star. simpl.
  rewrite !cell_avg_AVG, cell_total_SUM.
  by destruct (AVG (tip_ratio <$> rows)).
Qed.

(** The evaluator computes the payment-methods query, up to the order of
    rows with the same count. *)
Lemma aggregate_within_query (ceiling_bytes entry_bytes : nat) (t : list row)
    (rows : list payment_tuple) spills :
  aggregate_within ceiling_bytes entry_bytes t = Some (rows, spills) →
  rows ≡ₚ payment_methods_query t.
Proof.
  intros Hrows.
  rewrite (aggregate_within_exact (ExactSum0:=Qc_exact_sum) _ _ _ _ _ Hrows).
  unfold payment_methods_query. rewrite order_by_perm.
  rewrite (list_fmap_ext _ payment_select (group_by payment_key t)); [done|].
  intros _ [k rs] _. simpl. apply acc_finalize_select.
Qed.

(** In the source the limit is a setting of the connection that no
    query reads. *)
Lemma analysis_ignores_memory_limit (con : connection) (limit temp : string) :
  analyze_payment_methods
    {| yellow_taxi := yellow_taxi con; memory_limit := limit; temp_directory := temp |}
  = analyze_payment_methods con.
Proof. done. Qed.




(** * Further properties of the analyses and their callers *)

(** ** Loops *)

Lemma convert_all_Ok {A B} (conv : A → result B) rows xs :
  convert_all conv rows = Ok xs ↔ Forall2 (fun r x => conv r = Ok x) rows xs.
Proof.
  revert xs. induction rows as [|r rows IH]; intros xs; simpl.
  - split; [intros [= <-]; constructor|by inversion 1].
  - destruct (conv r) as [x|e] eqn:Hr; simpl.
    + destruct (convert_all conv rows) as [xs'|e] eqn:Hrows; simpl.
      * split.
        -- intros [= <-]. constructor; [done|]. by apply IH.
        -- inversion 1 as [|? y ? ys Hy Hys]; subst. rewrite Hr in Hy.
           injection Hy as <-. apply IH in Hys. by injection Hys as <-.
      * split; [done|]. inversion 1 as [|? y ? ys Hy Hys]; subst.
        apply IH in Hys. done.
    + split; [done|]. inversion 1 as [|? y ? ys Hy Hys]; subst. congruence.
Qed.

Lemma convert_all_Raise {A B} (conv : A → result B) rows e :
  convert_all conv rows = Raise e → ∃ r, r ∈ rows ∧ conv r = Raise e.
Proof.
  induction rows as [|r rows IH]; simpl; [done|].
  destruct (conv r) as [x|e'] eqn:Hr; simpl.
  - destruct (convert_all conv rows) as [xs'|e'] eqn:Hrows; simpl; [done|].
    intros [= ->]. destruct IH as (r' & ? & ?); [done|]. exists r'. split; [by right|done].
  - intros [= ->]. exists r. split; [left|done].
Qed.

Lemma convert_all_fails {A B} (conv : A → result B) rows r e :
  r ∈ rows → conv r = Raise e → ∃ e', convert_all conv rows = Raise e'.
Proof.
  induction 1 as [r rows|r r' rows Hr IH]; intros He; simpl.
  - rewrite He. by eexists.
  - destruct (conv r'); simpl; [|by eexists].
    destruct (IH He) as [e' ->]. by eexists.
Qed.

Section store_all.
Context {K V : Type} `{Countable K}.

Lemma store_all_cons (acc : gmap K V) (kv : K * V) (kvs : list (K * V)) :
  store_all acc (kv :: kvs) = store_all (<[kv.1 := kv.2]> acc) kvs.
Proof. done. Qed.

Lemma store_all_notin (acc : gmap K V) (kvs : list (K * V)) k :
  k ∉ kvs.*1 → store_all acc kvs !! k = acc !! k.
Proof.
  revert acc. induction kvs as [|[k1 v1] kvs IH]; intros acc Hk; [done|].
  rewrite fmap_cons, not_elem_of_cons in Hk. destruct Hk as [Hne Hk].
  rewrite store_all_cons, IH by done. by rewrite lookup_insert_ne.
Qed.

Lemma store_all_lookup (acc : gmap K V) (kvs : list (K * V)) k v :
  NoDup kvs.*1 → (k, v) ∈ kvs → store_all acc kvs !! k = Some v.
Proof.
  revert acc. induction kvs as [|[k1 v1] kvs IH]; intros acc Hnd Hin.
  - by apply not_elem_of_nil in Hin.
  - rewrite fmap_cons in Hnd. apply NoDup_cons in Hnd as [Hk1 Hnd].
    rewrite store_all_cons.
    apply elem_of_cons in Hin as [[= -> ->]|Hin].
    + rewrite store_all_notin by done. apply lookup_insert_eq.
    + by apply IH.
Qed.

Lemma store_all_lookup_inv (acc : gmap K V) (kvs : list (K * V)) k v :
  store_all acc kvs !! k = Some v → (k, v) ∈ kvs ∨ acc !! k = Some v.
Proof.
  revert acc. induction kvs as [|[k1 v1] kvs IH]; intros acc Hm; [by right|].
  rewrite store_all_cons in Hm.
  apply IH in Hm as [Hin|Hacc]; [left; by right|].
  destruct (decide (k1 = k)) as [->|Hne].
  - rewrite lookup_insert_eq in Hacc. injection Hacc as ->. left. left.
  - rewrite lookup_insert_ne in Hacc by done. by right.
Qed.
End store_all.

Lemma hour_data_loop (rows : list hour_tuple) (acc : gmap Z HourStats.t) :
  for_each hour_data_step rows acc
  = kvs ← convert_all hour_entry rows; Ok (store_all acc kvs).
Proof.
  revert acc. induction rows as [|row rows IH]; intros acc; [done|].
  cbn [for_each convert_all].
  destruct row as [[[[[hour count] distance] fare] tip] tip_pct].
  destruct hour, distance, fare, tip; try done. simpl.
  rewrite IH. by destruct (convert_all hour_entry rows).
Qed.

(** ** The rows of the hourly query *)

Lemma elem_of_trips_by_hour_query (t : list row) (x : hour_tuple) :
  x ∈ trips_by_hour_query t
  ↔ ∃ k, k ∈ hour_of_day <$> t
         ∧ x = trips_by_hour_select (k, filter (fun r => hour_of_day r = k) t).
Proof.
  unfold trips_by_hour_query. rewrite order_by_perm, list_elem_of_fmap.
  split.
  - intros ([k g] & -> & [Hk Hg]%elem_of_group_by). simpl in *. subst g. eauto.
  - intros (k & Hk & ->). eexists. split; [done|]. by apply elem_of_group_by.
Qed.

Lemma trips_by_hour_query_hours (t : list row) :
  NoDup ((fun x : hour_tuple => x.1.1.1.1.1) <$> trips_by_hour_query t).
Proof.
  unfold trips_by_hour_query. rewrite order_by_perm, <- list_fmap_compose.
  rewrite (list_fmap_ext _ fst (group_by hour_of_day t)) by (by intros ? []).
  rewrite group_by_keys. apply NoDup_remove_dups.
Qed.

Lemma extract_hour_range (ts : option Z) (h : Z) :
  extract_hour ts = Some h → 0 ≤ h < 24.
Proof.
  destruct ts as [t|]; [|done]. intros [= <-].
  unfold micros_per_day, micros_per_hour, micros_per_second.
  pose proof (Z.mod_pos_bound t (24 * (3600 * 1000000))) as Hm.
  split.
  - apply Z.div_pos; lia.
  - apply Z.div_lt_upper_bound; lia.
Qed.

(** ** [analyze_trips_by_hour]: what the dictionary holds *)

Lemma hour_entry_Ok (row : hour_tuple) (h : Z) (e : HourStats.t) :
  hour_entry row = Ok (h, e) →
  ∃ tip_pct,
    row = (Some h, HourStats.trip_count e, Some (HourStats.avg_distance e),
           Some (HourStats.avg_fare e), Some (HourStats.avg_tip e), tip_pct)
    ∧ HourStats.tip_percentage e = float_or_0 tip_pct.
Proof.
  destruct row as [[[[[hour count] distance] fare] tip] tip_pct].
  destruct hour, distance, fare, tip; try done. simpl.
  intros [= <- <-]. by exists tip_pct.
Qed.

Lemma analyze_trips_by_hour_Ok (con : connection) (t : table) d :
  yellow_taxi con = Some t → analyze_trips_by_hour con = Ok d →
  ∃ kvs, Forall2 (fun row kv => hour_entry row = Ok kv) (trips_by_hour_query t) kvs
         ∧ NoDup kvs.*1
         ∧ d = store_all ∅ kvs.
Proof.
  intros Ht. unfold analyze_trips_by_hour, fetchall. rewrite Ht. simpl.
  rewrite hour_data_loop.
  destruct (convert_all hour_entry (trips_by_hour_query t)) as [kvs|] eqn:Hkvs;
    simpl; [|done].
  intros [= <-]. apply convert_all_Ok in Hkvs. exists kvs. split_and!; [done| |done].
  apply (NoDup_fmap_1 Some).
  enough (Some <$> kvs.*1
          = (fun x : hour_tuple => x.1.1.1.1.1) <$> trips_by_hour_query t) as ->
    by apply trips_by_hour_query_hours.
  induction Hkvs as [|row [h e] rows kvs Hrow _ IH]; [done|].
  rewrite !fmap_cons, IH. f_equal.
  apply hour_entry_Ok in Hrow as (tip_pct & -> & _). done.
Qed.

(** X1. When [analyze_trips_by_hour] succeeds, [hour_data] has a key for
    exactly the hours in which a trip was picked up; the hour is between 0
    and 23 and the entry holds the number of trips of that hour, the
    averages of their distances, fares and tips, and their tip percentage
    (0 when it is NULL). *)
Theorem hour_data_holds_group_statistics (con : connection) (t : table)
    (d : gmap Z HourStats.t) :
  yellow_taxi con = Some t → analyze_trips_by_hour con = Ok d →
  ∀ h : Z,
    let group := filter (fun r => hour_of_day r = Some h) t in
    match d !! h with
    | None => group = []
    | Some e =>
        group ≠ [] ∧ 0 ≤ h < 24
        ∧ HourStats.trip_count e = length group
        ∧ AVG (trip_distance <$> group) = Some (HourStats.avg_distance e)
        ∧ AVG (fare_amount <$> group) = Some (HourStats.avg_fare e)
        ∧ AVG (tip_amount <$> group) = Some (HourStats.avg_tip e)
        ∧ HourStats.tip_percentage e = float_or_0 (avg_tip_percentage group)
    end.
Proof.
  intros Ht Hd h group.
  destruct (analyze_trips_by_hour_Ok con t d Ht Hd) as (kvs & Hkvs & Hnd & ->).
  destruct (store_all ∅ kvs !! h) as [e|] eqn:Hh.
  - apply store_all_lookup_inv in Hh as [Hin|Hempty]; [|by rewrite lookup_empty in Hempty].
    apply list_elem_of_lookup in Hin as [i Hi].
    destruct (Forall2_lookup_r _ _ _ _ _ Hkvs Hi) as (row & Hrow & Hentry).
    apply list_elem_of_lookup_2, elem_of_trips_by_hour_query in Hrow
      as (k & Hk & ->).
    apply hour_entry_Ok in Hentry as (tip_pct & Heq & Hpct).
    unfold trips_by_hour_select, COUNT_star in Heq. simpl in Heq.
    injection Heq as -> Hcount Hdist Hfare Htip <-.
    fold group in Hcount, Hdist, Hfare, Htip, Hpct.
    assert (0 ≤ h < 24) as [??].
    { apply list_elem_of_fmap in Hk as (r & Hr & _).
      by apply (extract_hour_range (tpep_pickup_datetime r)). }
    split_and!; try done.
    by apply (group_nonempty hour_of_day).
  - destruct (decide (group = [])) as [|Hne]; [done|exfalso].
    apply (group_nonempty hour_of_day) in Hne.
    assert (Hrow : trips_by_hour_select (Some h, group) ∈ trips_by_hour_query t)
      by (apply elem_of_trips_by_hour_query; eauto).
    apply list_elem_of_lookup in Hrow as [i Hi].
    destruct (Forall2_lookup_l _ _ _ _ _ Hkvs Hi) as ([h' e] & Hkv & Hentry).
    apply hour_entry_Ok in Hentry as (tip_pct & [= <- _ _ _ _ _] & _).
    rewrite (store_all_lookup ∅ kvs h e) in Hh; [done|done|].
    by eapply list_elem_of_lookup_2.
Qed.

(** ** [analyze_trips_by_hour]: when it raises *)

Lemma AVG_None (xs : list (option Qc)) :
  AVG xs = None ↔ Forall (fun x => x = None) xs.
Proof.
  unfold AVG, non_null. split.
  - intros Havg. induction xs as [|[x|] xs IH]; [constructor|done|].
    constructor; [done|]. apply IH. simpl in Havg. done.
  - intros Hall. induction Hall as [|x xs -> _ IH]; [done|]. simpl. done.
Qed.

Lemma AVG_fmap_None {A} (f : A → option Qc) (l : list A) :
  AVG (f <$> l) = None ↔ Forall (fun r => f r = None) l.
Proof. by rewrite AVG_None, Forall_fmap. Qed.

Lemma hour_entry_Raise (row : hour_tuple) (e : exn) :
  hour_entry row = Raise e
  ↔ e = TypeError
    ∧ (row.1.1.1.1.1 = None ∨ row.1.1.1.2 = None ∨ row.1.1.2 = None ∨ row.1.2 = None).
Proof.
  destruct row as [[[[[hour count] distance] fare] tip] tip_pct].
  destruct hour, distance, fare, tip; simpl;
    (split;
     [intros Hx;
      first [discriminate Hx
            |injection Hx as <-; split; [done|]; repeat first [by left|right]; done]
     |intros [-> [?|[?|[?|?]]]]; done]).
Qed.

(** X2. [analyze_trips_by_hour] raises in two cases only: the table does
    not exist (the statement fails), or the conversion of a result row
    fails with [TypeError], which happens exactly when some trip has no
    pick-up time or belongs to an hour in which no trip has a distance,
    or none has a fare, or none has a tip. *)
Theorem analyze_trips_by_hour_raises (con : connection) (e : exn) :
  analyze_trips_by_hour con = Raise e
  ↔ match yellow_taxi con with
    | None => e = CatalogException
    | Some t =>
        e = TypeError
        ∧ ∃ r, r ∈ t
            ∧ (hour_of_day r = None
               ∨ Forall (fun r' => trip_distance r' = None)
                   (filter (fun r' => hour_of_day r' = hour_of_day r) t)
               ∨ Forall (fun r' => fare_amount r' = None)
                   (filter (fun r' => hour_of_day r' = hour_of_day r) t)
               ∨ Forall (fun r' => tip_amount r' = None)
                   (filter (fun r' => hour_of_day r' = hour_of_day r) t))
    end.
Proof.
  unfold analyze_trips_by_hour, fetchall.
  destruct (yellow_taxi con) as [t|]; simpl; [|split; congruence].
  rewrite hour_data_loop.
  destruct (convert_all hour_entry (trips_by_hour_query t)) as [kvs|e'] eqn:Hall;
    simpl.
  - split; [done|]. intros (_ & r & Hr & Hnull). exfalso.
    assert (Hrow : trips_by_hour_select
                     (hour_of_day r, filter (fun r' => hour_of_day r' = hour_of_day r) t)
                   ∈ trips_by_hour_query t).
    { apply elem_of_trips_by_hour_query. eexists. split; [|done].
      apply list_elem_of_fmap. eauto. }
    destruct (convert_all_fails hour_entry _ _ TypeError Hrow) as [e' He'];
      [|congruence].
    apply hour_entry_Raise. split; [done|]. simpl.
    rewrite !AVG_fmap_None. tauto.
  - apply convert_all_Raise in Hall as (row & Hrow & Hentry).
    apply hour_entry_Raise in Hentry as [-> Hnull].
    apply elem_of_trips_by_hour_query in Hrow as (k & Hk & ->).
    apply list_elem_of_fmap in Hk as (r & -> & Hr).
    simpl in Hnull. rewrite !AVG_fmap_None in Hnull.
    split; [by intros [= <-]; eauto|]. by intros [-> _].
Qed.

(** ** [analyze_payment_methods]: what the dictionary holds *)

Lemma pretty_N_go_not_N (x : N) (s : string) :
  (∀ s', s ≠ "N" +:+ s') → ∀ s', pretty_N_go x s ≠ "N" +:+ s'.
Proof.
  revert s. induction (N.lt_wf_0 x) as [x _ IH]; intros s Hs.
  assert (x = 0 ∨ 0 < x)%N as [->|?] by lia.
  - by rewrite pretty_N_go_0.
  - rewrite pretty_N_go_step by done. apply IH.
    { by apply N.div_lt. }
    intros s'. unfold pretty_N_char. by repeat case_match.
Qed.

Lemma pretty_Z_not_None (n : Z) : pretty n ≠ "None"%string.
Proof.
  destruct n as [|p|p]; [done|..].
  - unfold pretty, pretty_Z, pretty, pretty_positive, pretty, pretty_N.
    rewrite decide_False by done.
    apply (pretty_N_go_not_N (N.pos p) "" (fun s' => ltac:(done)) "one").
  - done.
Qed.

Lemma py_str_inj : Inj (=) (=) py_str.
Proof.
  intros [n|] [m|] Heq; simpl in Heq; [|exfalso..|done].
  - f_equal. by apply (inj pretty).
  - by apply (pretty_Z_not_None n).
  - by apply (pretty_Z_not_None m).
Qed.

Lemma payment_desc_of_type (r : row) : payment_desc r = payment_desc_of (payment_type r).
Proof. done. Qed.

Lemma payment_key_eq (r r' : row) :
  payment_key r' = payment_key r ↔ payment_type r' = payment_type r.
Proof.
  unfold payment_key. rewrite !payment_desc_of_type. split; [by intros [= ->]|].
  by intros ->.
Qed.

Lemma payment_loop (rows : list payment_tuple) (acc : gmap string PaymentStats.t) :
  for_each payment_data_step rows acc
  = kvs ← convert_all payment_entry rows; Ok (store_all acc kvs).
Proof.
  revert acc. induction rows as [|row rows IH]; intros acc; [done|].
  cbn [for_each convert_all].
  destruct row as [[[[[[payment_id desc] count] fare] tip] total_tips] tip_pct].
  destruct fare, tip, total_tips; try done. simpl.
  rewrite IH. by destruct (convert_all payment_entry rows).
Qed.

Lemma payment_entry_Ok (row : payment_tuple) (k : string) (e : PaymentStats.t) :
  payment_entry row = Ok (k, e) →
  ∃ payment_id tip_pct,
    row = (payment_id, PaymentStats.description e, PaymentStats.trip_count e,
           Some (PaymentStats.avg_fare e), Some (PaymentStats.avg_tip e),
           Some (PaymentStats.total_tips e), tip_pct)
    ∧ k = py_str payment_id
    ∧ PaymentStats.tip_percentage e = float_or_0 tip_pct.
Proof.
  destruct row as [[[[[[payment_id desc] count] fare] tip] total_tips] tip_pct].
  destruct fare, tip, total_tips; try done. simpl.
  intros [= <- <-]. by exists payment_id, tip_pct.
Qed.

Lemma elem_of_payment_methods_query (t : list row) (x : payment_tuple) :
  x ∈ payment_methods_query t
  ↔ ∃ p, p ∈ payment_type <$> t
         ∧ x = payment_select (p, payment_desc_of p,
                               filter (fun r => payment_type r = p) t).
Proof.
  unfold payment_methods_query. rewrite order_by_perm, list_elem_of_fmap.
  split.
  - intros ([k g] & -> & [Hk Hg]%elem_of_group_by). simpl in *. subst g.
    apply list_elem_of_fmap in Hk as (r & -> & Hr). exists (payment_type r).
    split; [apply list_elem_of_fmap; eauto|].
    unfold payment_key at 1. rewrite payment_desc_of_type. do 2 f_equal.
    apply list_filter_iff. intros r'. apply payment_key_eq.
  - intros (p & Hp & ->). apply list_elem_of_fmap in Hp as (r & -> & Hr).
    exists (payment_key r, filter (fun r' => payment_key r' = payment_key r) t).
    split.
    + unfold payment_key at 1. rewrite payment_desc_of_type. do 2 f_equal.
      apply list_filter_iff. intros r'. symmetry. apply payment_key_eq.
    + apply elem_of_group_by. split; [|done]. apply list_elem_of_fmap. eauto.
Qed.

Lemma payment_methods_query_ids (t : list row) :
  NoDup ((fun x : payment_tuple => x.1.1.1.1.1.1) <$> payment_methods_query t).
Proof.
  unfold payment_methods_query. rewrite order_by_perm, <- list_fmap_compose.
  rewrite (list_fmap_ext _ (fst ∘ fst) (group_by payment_key t))
    by (by intros ? [[]]).
  rewrite (list_fmap_compose fst fst), group_by_keys.
  apply NoDup_fmap_2_strong; [|apply NoDup_remove_dups].
  intros k1 k2 (r1 & -> & _)%elem_of_remove_dups%list_elem_of_fmap
               (r2 & -> & _)%elem_of_remove_dups%list_elem_of_fmap Heq.
  apply payment_key_eq. done.
Qed.

(** X3. When [analyze_payment_methods] succeeds, [payment_data] has the
    key [str(p)] for exactly the payment types [p] that occur (NULL is
    stored under "None", and different types never share a key); the
    entry holds the description of the type, the number of its trips,
    their average fare and tip, their total tips and their tip
    percentage (0 when it is NULL). *)
Theorem payment_data_holds_group_statistics (con : connection) (t : table)
    (d : gmap string PaymentStats.t) :
  yellow_taxi con = Some t → analyze_payment_methods con = Ok d →
  ∀ p : option Z,
    let group := filter (fun r => payment_type r = p) t in
    match d !! py_str p with
    | None => group = []
    | Some e =>
        group ≠ []
        ∧ PaymentStats.description e = payment_desc_of p
        ∧ PaymentStats.trip_count e = length group
        ∧ AVG (fare_amount <$> group) = Some (PaymentStats.avg_fare e)
        ∧ AVG (tip_amount <$> group) = Some (PaymentStats.avg_tip e)
        ∧ SUM (tip_amount <$> group) = Some (PaymentStats.total_tips e)
        ∧ PaymentStats.tip_percentage e = float_or_0 (avg_tip_percentage group)
    end.
Proof.
  intros Ht Hd p group.
  unfold analyze_payment_methods, fetchall in Hd. rewrite Ht in Hd. simpl in Hd.
  rewrite payment_loop in Hd.
  destruct (convert_all payment_entry (payment_methods_query t)) as [kvs|] eqn:Hkvs;
    simpl in Hd; [|done].
  injection Hd as <-. apply convert_all_Ok in Hkvs.
  assert (Hnd : NoDup kvs.*1).
  { enough (kvs.*1 = py_str <$> ((fun x : payment_tuple => x.1.1.1.1.1.1)
                                  <$> payment_methods_query t)) as ->
      by (apply (@NoDup_fmap_2 _ _ py_str py_str_inj), payment_methods_query_ids).
    clear -Hkvs. induction Hkvs as [|row [k e] rows kvs Hrow _ IH]; [done|].
    rewrite !fmap_cons, IH. f_equal.
    apply payment_entry_Ok in Hrow as (? & ? & -> & -> & _). done. }
  destruct (store_all ∅ kvs !! py_str p) as [e|] eqn:Hp.
  - apply store_all_lookup_inv in Hp as [Hin|Hempty];
      [|by rewrite lookup_empty in Hempty].
    apply list_elem_of_lookup in Hin as [i Hi].
    destruct (Forall2_lookup_r _ _ _ _ _ Hkvs Hi) as (row & Hrow & Hentry).
    apply list_elem_of_lookup_2, elem_of_payment_methods_query in Hrow
      as (p' & Hp' & ->).
    apply payment_entry_Ok in Hentry as (id & tip_pct & Heq & Hid & Hpct).
    unfold payment_select, COUNT_star in Heq. simpl in Heq.
    injection Heq as -> Hdesc Hcount Hfare Htip Htotal <-.
    apply py_str_inj in Hid as <-.
    split_and!; try done.
    by apply (group_nonempty payment_type).
  - destruct (decide (group = [])) as [|Hne]; [done|exfalso].
    apply (group_nonempty payment_type) in Hne.
    assert (Hrow : payment_select (p, payment_desc_of p, group)
                   ∈ payment_methods_query t)
      by (apply elem_of_payment_methods_query; eauto).
    apply list_elem_of_lookup in Hrow as [i Hi].
    destruct (Forall2_lookup_l _ _ _ _ _ Hkvs Hi) as ([k e] & Hkv & Hentry).
    apply payment_entry_Ok in Hentry as (id & tip_pct & [= <- _ _ _ _ _ _] & -> & _).
    rewrite (store_all_lookup ∅ kvs (py_str p) e) in Hp; [done|done|].
    by eapply list_elem_of_lookup_2.
Qed.

(** ** [analyze_popular_routes]: the top routes *)

Lemma routes_loop (rows : list route_tuple) (acc : list Route.t) :
  for_each routes_data_step rows acc
  = xs ← convert_all route_entry rows; Ok (acc ++ xs).
Proof.
  revert acc. induction rows as [|row rows IH]; intros acc.
  - simpl. by rewrite app_nil_r.
  - cbn [for_each convert_all].
    destruct row as [[[[[[[plong plat] dlong] dlat] count] distance] fare] total].
    destruct plong, plat, dlong, dlat, distance, fare, total; try done. simpl.
    rewrite IH. destruct (convert_all route_entry rows); simpl; [|done].
    by rewrite <- app_assoc.
Qed.




Lemma analyze_popular_routes_on_None (con : connection) (limit : nat) :
  analyze_popular_routes_on None con limit = analyze_popular_routes con limit.
Proof. done. Qed.



(** ** [analyze_busy_days_and_times] *)

Lemma day_loop (rows : list day_tuple) (acc : gmap string DayStats.t) :
  for_each day_data_step rows acc
  = kvs ← convert_all day_entry rows; Ok (store_all acc kvs).
Proof.
  revert acc. induction rows as [|row rows IH]; intros acc; [done|].
  cbn [for_each convert_all].
  destruct row as [[[[[day count] distance] fare] tip] speed].
  destruct day, distance, fare, tip; try done. simpl.
  rewrite IH. by destruct (convert_all day_entry rows).
Qed.

Lemma hour_by_day_loop (rows : list hour_by_day_tuple)
    (acc : gmap string (gmap Z nat)) :
  for_each hour_by_day_step rows acc
  = xs ← convert_all hour_by_day_entry rows; Ok (foldl store_cell acc xs).
Proof.
  revert acc. induction rows as [|row rows IH]; intros acc; [done|].
  cbn [for_each convert_all].
  destruct row as [[day hour] count].
  destruct day, hour; try done. simpl.
  rewrite IH. by destruct (convert_all hour_by_day_entry rows).
Qed.

Lemma analyze_busy_days_and_times_Ok (con : connection) (t : table)
    (days : gmap string DayStats.t) (hours : gmap string (gmap Z nat)) :
  yellow_taxi con = Some t → analyze_busy_days_and_times con = Ok (days, hours) →
  ∃ kvs xs,
    Forall2 (fun row kv => day_entry row = Ok kv) (day_query t) kvs
    ∧ days = store_all ∅ kvs
    ∧ Forall2 (fun row x => hour_by_day_entry row = Ok x) (hour_by_day_query t) xs
    ∧ hours = foldl store_cell ∅ xs.
Proof.
  intros Ht. unfold analyze_busy_days_and_times, fetchall. rewrite Ht. simpl.
  rewrite day_loop, hour_by_day_loop.
  destruct (convert_all day_entry (day_query t)) as [kvs|] eqn:Hkvs; simpl; [|done].
  destruct (convert_all hour_by_day_entry (hour_by_day_query t)) as [xs|] eqn:Hxs;
    simpl; [|done].
  intros [= <- <-]. exists kvs, xs. by rewrite <- !convert_all_Ok.
Qed.

(** *** The heat map *)

Lemma heat_map_cell_store (m : gmap string (gmap Z nat)) (x : string * Z * nat)
    (day : string) (hour : Z) :
  heat_map_cell (store_cell m x) day hour
  = if decide ((x.1.1, x.1.2) = (day, hour)) then x.2 else heat_map_cell m day hour.
Proof.
  destruct x as [[k h] c]. unfold heat_map_cell, store_cell. simpl.
  destruct (decide (k = day)) as [->|Hk].
  - rewrite lookup_insert_eq. simpl. destruct (decide (h = hour)) as [->|Hh].
    + rewrite lookup_insert_eq, decide_True by done. done.
    + rewrite lookup_insert_ne, decide_False by congruence. done.
  - rewrite lookup_insert_ne, decide_False by congruence. done.
Qed.

Lemma heat_map_cell_notin (m : gmap string (gmap Z nat)) (xs : list (string * Z * nat))
    (day : string) (hour : Z) :
  (day, hour) ∉ xs.*1 →
  heat_map_cell (foldl store_cell m xs) day hour = heat_map_cell m day hour.
Proof.
  revert m. induction xs as [|x xs IH]; intros m Hnotin; [done|].
  rewrite fmap_cons, not_elem_of_cons in Hnotin. destruct Hnotin as [Hne Hnotin].
  cbn [foldl]. rewrite IH, heat_map_cell_store by done.
  rewrite decide_False; [done|]. destruct x as [[??]?]. simpl in *. congruence.
Qed.

Lemma heat_map_cell_in (m : gmap string (gmap Z nat)) (xs : list (string * Z * nat))
    (day : string) (hour : Z) (c : nat) :
  NoDup xs.*1 → (day, hour, c) ∈ xs →
  heat_map_cell (foldl store_cell m xs) day hour = c.
Proof.
  revert m. induction xs as [|x xs IH]; intros m Hnd Hin.
  - by apply not_elem_of_nil in Hin.
  - rewrite fmap_cons in Hnd. apply NoDup_cons in Hnd as [Hx Hnd]. cbn [foldl].
    apply elem_of_cons in Hin as [<-|Hin].
    + rewrite heat_map_cell_notin by done.
      by rewrite heat_map_cell_store, decide_True.
    + by apply IH.
Qed.

Lemma elem_of_hour_by_day_query (t : list row) (x : hour_by_day_tuple) :
  x ∈ hour_by_day_query t
  ↔ ∃ k, k ∈ hour_by_day_key <$> t
         ∧ x = (k.1, k.2, length (filter (fun r => hour_by_day_key r = k) t)).
Proof.
  unfold hour_by_day_query. rewrite order_by_perm, list_elem_of_fmap.
  split.
  - intros ([k g] & -> & [Hk Hg]%elem_of_group_by). simpl in *. subst g. eauto.
  - intros (k & Hk & ->). eexists (k, _). split; [done|]. by apply elem_of_group_by.
Qed.

Lemma hour_by_day_query_keys (t : list row) :
  NoDup ((fun x : hour_by_day_tuple => x.1) <$> hour_by_day_query t).
Proof.
  unfold hour_by_day_query. rewrite order_by_perm, <- list_fmap_compose.
  rewrite (list_fmap_ext _ fst (group_by hour_by_day_key t)) by (by intros ? [[]]).
  rewrite group_by_keys. apply NoDup_remove_dups.
Qed.

Lemma hour_by_day_entry_Ok (row : hour_by_day_tuple) (x : string * Z * nat) :
  hour_by_day_entry row = Ok x ↔ row = (Some x.1.1, Some x.1.2, x.2).
Proof.
  destruct row as [[day hour] count], x as [[k h] c].
  destruct day, hour; simpl;
    (split; intros Heq; first [discriminate Heq|by simplify_eq]).
Qed.

(** X6. When [analyze_busy_days_and_times] succeeds, the cell of the heat
    map for a day and an hour, read as the report reads it (0 when the
    day or the hour is missing), is the number of trips picked up on that
    day of the week in that hour. *)
Theorem heat_map_cell_counts_trips (con : connection) (t : table)
    (days : gmap string DayStats.t) (hours : gmap string (gmap Z nat))
    (day : string) (hour : Z) :
  yellow_taxi con = Some t → analyze_busy_days_and_times con = Ok (days, hours) →
  heat_map_cell hours day hour
  = length (filter (fun r => day_name r = Some day ∧ hour_of_day r = Some hour) t).
Proof.
  intros Ht Hok.
  destruct (analyze_busy_days_and_times_Ok con t days hours Ht Hok)
    as (_ & xs & _ & _ & Hxs & ->).
  assert (Hkeys : (fun x : string * Z * nat => (Some x.1.1, Some x.1.2)) <$> xs
                  = (fun x : hour_by_day_tuple => x.1) <$> hour_by_day_query t).
  { clear -Hxs. induction Hxs as [|row x rows xs Hrow _ IH]; [done|].
    rewrite !fmap_cons, IH. f_equal. apply hour_by_day_entry_Ok in Hrow as ->. done. }
  assert (Hnd : NoDup xs.*1).
  { apply (NoDup_fmap_1 (fun k : string * Z => (Some k.1, Some k.2))).
    rewrite <- list_fmap_compose.
    rewrite (list_fmap_ext _ (fun x : string * Z * nat => (Some x.1.1, Some x.1.2)) xs)
      by done.
    rewrite Hkeys. apply hour_by_day_query_keys. }
  rewrite (list_filter_iff _ (fun r => hour_by_day_key r = (Some day, Some hour)))
    by (intros r; unfold hour_by_day_key; split; [by intros [-> ->]|by intros [= -> ->]]).
  destruct (decide ((Some day, Some hour) ∈ hour_by_day_key <$> t)) as [Hin|Hnotin].
  - assert (Hrow : (Some day, Some hour,
                    length (filter (fun r => hour_by_day_key r = (Some day, Some hour)) t))
                   ∈ hour_by_day_query t)
      by (apply elem_of_hour_by_day_query; eexists; split; [exact Hin|done]).
    apply list_elem_of_lookup in Hrow as [i Hi].
    destruct (Forall2_lookup_l _ _ _ _ _ Hxs Hi) as ([[k h] c] & Hx & Hentry).
    apply hour_by_day_entry_Ok in Hentry. simpl in Hentry.
    injection Hentry as <- <- <-.
    apply heat_map_cell_in; [done|]. by eapply list_elem_of_lookup_2.
  - rewrite heat_map_cell_notin.
    + match goal with
      | |- _ = length ?g => destruct g as [|r rows] eqn:Hf; [done|]
      end.
      exfalso. apply Hnotin, (group_nonempty hour_by_day_key). by rewrite Hf.
    + intros Hin. apply Hnotin.
      apply (list_elem_of_fmap_2 (fun k : string * Z => (Some k.1, Some k.2))) in Hin.
      rewrite <- list_fmap_compose in Hin.
      rewrite (list_fmap_ext _ (fun x : string * Z * nat => (Some x.1.1, Some x.1.2)) xs)
        in Hin by done.
      rewrite Hkeys in Hin. simpl in Hin.
      apply list_elem_of_fmap in Hin as (row & Hrow & (k & Hk & ->)%elem_of_hour_by_day_query).
      simpl in Hrow. destruct k. simpl in *. by simplify_eq.
Qed.

(** *** The day statistics *)

Lemma busy_row_speed (r : row) :
  busy_days_where r = true →
  ∃ d v : Qc,
    trip_distance r = Some d ∧ (Qc_of_Z 0 < d)%Qc
    ∧ speed_mph r = Some v ∧ (Qc_of_Z 0 < v)%Qc
    ∧ is_Some (day_name r).
Proof.
  unfold busy_days_where.
  intros [[Hts Hd]%is_true_and Hs]%is_true_and.
  unfold speed_mph, duration_hours, duration_seconds, day_name in *.
  destruct (trip_distance r) as [d|]; [|done].
  destruct (tpep_dropoff_datetime r) as [off|]; [|done].
  destruct (tpep_pickup_datetime r) as [on|]; [|done].
  simpl in Hd, Hs.
  destruct (Qc_ltb (Qc_of_Z 0) d) eqn:Hd0; [|done]. apply Qc_ltb_lt in Hd0.
  destruct (Qc_ltb (Qc_of_Z 60) _) eqn:H60 in Hs; [|done]. apply Qc_ltb_lt in H60.
  set (s := (Qc_of_Z (off - on) / Qc_of_Z micros_per_second)%Qc) in *.
  assert (Hpos : (Qc_of_Z 0 < s)%Qc).
  { eapply Qclt_trans; [|exact H60]. by apply Z2Qc_inj_lt. }
  assert (Hh : (Qc_of_Z 0 < s / Qc_of_Z 3600)%Qc).
  { apply Qc_div_pos; [done|]. by apply Z2Qc_inj_lt. }
  exists d, (d / (s / Qc_of_Z 3600))%Qc.
  split_and!; [done|done| |by apply Qc_div_pos|by eexists].
  simpl. fold s. by rewrite (Qc_pos_eqb_0 _ Hh).
Qed.

Lemma Qc_sum_pos (vs : list Qc) :
  vs ≠ [] → Forall (fun v => (Qc_of_Z 0 < v)%Qc) vs → (Qc_of_Z 0 < Qc_sum vs)%Qc.
Proof.
  intros Hne Hall. induction Hall as [|v vs Hv Hall IH]; [done|].
  unfold Qc_sum. cbn [foldr]. fold (Qc_sum vs).
  destruct vs as [|v' vs'].
  - unfold Qc_sum. simpl. by rewrite Z2Qc_inj_0, Qcplus_0_r, <- Z2Qc_inj_0.
  - rewrite Z2Qc_inj_0 in *. apply Qcplus_pos_pos; [done|]. by apply IH.
Qed.

Lemma AVG_pos {A} (f : A → option Qc) (l : list A) :
  l ≠ [] → Forall (fun r => ∃ v, f r = Some v ∧ (Qc_of_Z 0 < v)%Qc) l →
  ∃ a, AVG (f <$> l) = Some a ∧ (Qc_of_Z 0 < a)%Qc.
Proof.
  intros Hne Hall.
  assert (Hpos : Forall (fun v => (Qc_of_Z 0 < v)%Qc) (non_null (f <$> l))).
  { clear Hne. unfold non_null.
    induction Hall as [|r l' (v & Hr & Hv) Hall IH]; [constructor|].
    rewrite fmap_cons. cbn [omap list_omap]. rewrite Hr. simpl. by constructor. }
  assert (Hvne : non_null (f <$> l) ≠ []).
  { unfold non_null. destruct Hall as [|r l' (v & Hr & Hv) Hall]; [done|].
    rewrite fmap_cons. cbn [omap list_omap]. by rewrite Hr. }
  unfold AVG. destruct (non_null (f <$> l)) as [|v vs]; [done|].
  eexists. split; [done|].
  apply Qc_div_pos; [by apply Qc_sum_pos|].
  unfold Qc_of_nat.
  apply (proj1 (Z2Qc_inj_lt 0 (Z.of_nat (length (v :: vs))))). cbn [length]. lia.
Qed.

Lemma elem_of_day_query (t : list row) (x : day_tuple) :
  x ∈ day_query t
  ↔ ∃ k, k ∈ day_name <$> filter busy_days_where t
         ∧ x = day_select (k, filter (fun r => day_name r = k)
                                (filter busy_days_where t)).
Proof.
  unfold day_query. rewrite order_by_perm, list_elem_of_fmap.
  split.
  - intros ([k g] & -> & [Hk Hg]%elem_of_group_by). simpl in *. subst g. eauto.
  - intros (k & Hk & ->). eexists (k, _). split; [done|]. by apply elem_of_group_by.
Qed.

Lemma day_query_days (t : list row) :
  NoDup ((fun x : day_tuple => x.1.1.1.1.1) <$> day_query t).
Proof.
  unfold day_query. rewrite order_by_perm, <- list_fmap_compose.
  rewrite (list_fmap_ext _ fst (group_by day_name (filter busy_days_where t)))
    by (by intros ? []).
  rewrite group_by_keys. apply NoDup_remove_dups.
Qed.

Lemma day_entry_Ok (row : day_tuple) (k : string) (e : DayStats.t) :
  day_entry row = Ok (k, e) →
  ∃ speed,
    row = (Some k, DayStats.trip_count e, Some (DayStats.avg_distance e),
           Some (DayStats.avg_fare e), Some (DayStats.avg_tip e), speed)
    ∧ DayStats.avg_speed_mph e = float_or_0 speed.
Proof.
  destruct row as [[[[[day count] distance] fare] tip] speed].
  destruct day, distance, fare, tip; try done. simpl.
  intros [= <- <-]. by exists speed.
Qed.

(** X5. When [analyze_busy_days_and_times] succeeds, [day_data] has a key
    for exactly the week days on which a trip that passes the filter was
    picked up; the entry holds the number of those trips and the averages
    of their distances, fares, tips and speeds, and the average distance
    and the average speed are strictly positive: the fallback to 0 for a
    NULL speed is never taken. *)
Theorem day_data_holds_group_statistics (con : connection) (t : table)
    (days : gmap string DayStats.t) (hours : gmap string (gmap Z nat)) :
  yellow_taxi con = Some t → analyze_busy_days_and_times con = Ok (days, hours) →
  ∀ day : string,
    let group := filter (fun r => day_name r = Some day) (filter busy_days_where t) in
    match days !! day with
    | None => group = []
    | Some e =>
        group ≠ []
        ∧ DayStats.trip_count e = length group
        ∧ AVG (trip_distance <$> group) = Some (DayStats.avg_distance e)
        ∧ AVG (fare_amount <$> group) = Some (DayStats.avg_fare e)
        ∧ AVG (tip_amount <$> group) = Some (DayStats.avg_tip e)
        ∧ AVG (speed_mph <$> group) = Some (DayStats.avg_speed_mph e)
        ∧ (Qc_of_Z 0 < DayStats.avg_distance e)%Qc
        ∧ (Qc_of_Z 0 < DayStats.avg_speed_mph e)%Qc
    end.
Proof.
  intros Ht Hok day group.
  destruct (analyze_busy_days_and_times_Ok con t days hours Ht Hok)
    as (kvs & _ & Hkvs & -> & _ & _).
  assert (Hnd : NoDup kvs.*1).
  { apply (NoDup_fmap_1 Some).
    enough (Some <$> kvs.*1 = (fun x : day_tuple => x.1.1.1.1.1) <$> day_query t) as ->
      by apply day_query_days.
    clear -Hkvs. induction Hkvs as [|row [k e] rows kvs Hrow _ IH]; [done|].
    rewrite !fmap_cons, IH. f_equal.
    apply day_entry_Ok in Hrow as (speed & -> & _). done. }
  assert (Hbusy : Forall (fun r => busy_days_where r = true) group).
  { apply Forall_forall. intros r [_ [Hr _]%list_elem_of_filter]%list_elem_of_filter.
    by apply Is_true_true. }
  destruct (store_all ∅ kvs !! day) as [e|] eqn:Hday.
  - apply store_all_lookup_inv in Hday as [Hin|Hempty];
      [|by rewrite lookup_empty in Hempty].
    apply list_elem_of_lookup in Hin as [i Hi].
    destruct (Forall2_lookup_r _ _ _ _ _ Hkvs Hi) as (row & Hrow & Hentry).
    apply list_elem_of_lookup_2, elem_of_day_query in Hrow as (k & Hk & ->).
    apply day_entry_Ok in Hentry as (speed & Heq & Hspeed).
    unfold day_select, COUNT_star in Heq. simpl in Heq.
    injection Heq as -> Hcount Hdist Hfare Htip <-.
    assert (Hne : group ≠ []) by (by apply (group_nonempty day_name)).
    unfold group in *.
    destruct (AVG_pos speed_mph _ Hne) as (v & Hv & Hvpos).
    { eapply Forall_impl; [exact Hbusy|]. intros r Hr.
      destruct (busy_row_speed r Hr) as (d & w & _ & _ & Hs & Hpos & _). eauto. }
    destruct (AVG_pos trip_distance _ Hne) as (a & Ha & Hapos).
    { eapply Forall_impl; [exact Hbusy|]. intros r Hr.
      destruct (busy_row_speed r Hr) as (d & w & Hd & Hpos & _). eauto. }
    assert (Hv' : DayStats.avg_speed_mph e = float_or_0 (Some v))
      by (rewrite <- Hv; exact Hspeed).
    assert (Ha' : Some a = Some (DayStats.avg_distance e))
      by (rewrite <- Ha; exact Hdist).
    simpl in Hv'. injection Ha' as Ha'. subst v a.
    split_and!; done.
  - destruct (decide (group = [])) as [|Hne]; [done|exfalso].
    apply (group_nonempty day_name) in Hne.
    assert (Hrow : day_select (Some day, group) ∈ day_query t)
      by (apply elem_of_day_query; eauto).
    apply list_elem_of_lookup in Hrow as [i Hi].
    destruct (Forall2_lookup_l _ _ _ _ _ Hkvs Hi) as ([k e] & Hkv & Hentry).
    apply day_entry_Ok in Hentry as (speed & [= <- _ _ _ _ _] & _).
    rewrite (store_all_lookup ∅ kvs day e) in Hday; [done|done|].
    by eapply list_elem_of_lookup_2.
Qed.

(** ** [test_large_memory_processing] *)

Lemma moving_avg_fst {A} (e : A → option Qc) (radius : nat) (l : list A) :
  (moving_avg e radius l).*1 = l.
Proof.
  unfold moving_avg. rewrite fmap_imap.
  change (imap (fun _ (x : A) => x) l = l).
  by rewrite (imap_const id), list_fmap_id.
Qed.

Lemma filter_all {A} (P : A → Prop) `{∀ x, Decision (P x)} (l : list A) :
  Forall P l → filter P l = l.
Proof.
  induction 1 as [|x l Hx _ IH]; [done|].
  by rewrite filter_cons, decide_True, IH.
Qed.

(** The common table expression keeps every trip once, with its rank. *)
Lemma trip_ranks_ranked (t : list row) :
  (fun x => (trip x, tr_day_fare_rank x)) <$> trip_ranks t
  ≡ₚ (fun r => (r, day_fare_rank t r)) <$> t.
Proof.
  unfold trip_ranks, percentile_tile.
  rewrite <- list_fmap_compose.
  rewrite (list_fmap_ext _ (fst ∘ fst) (ntile_over 100 _)) by (by intros ? [[[]]]).
  rewrite (list_fmap_compose fst fst), ntile_over_fst, order_by_perm.
  by rewrite moving_avg_fst, order_by_perm.
Qed.

Lemma trip_ranks_tiles (t : list row) :
  distance_percentile <$> trip_ranks t = NTILE 100 (length t) <$> seq 0 (length t).
Proof.
  unfold trip_ranks, percentile_tile.
  rewrite <- list_fmap_compose.
  rewrite (list_fmap_ext _ snd (ntile_over 100 _)) by (by intros ? []).
  rewrite ntile_over_snd.
  assert (Hlen : ∀ l : list (row * nat * option Qc),
             l.*1 ≡ₚ (fun r => (r, day_fare_rank t r)) <$> t → length l = length t).
  { intros l Hl. by rewrite <- (length_fmap fst l), Hl, length_fmap. }
  rewrite !Hlen; [done|..];
    by rewrite order_by_perm, moving_avg_fst, order_by_perm.
Qed.

Lemma day_fare_rank_le (t : list row) (r : row) :
  r ∈ t → (day_fare_rank t r ≤ length t)%nat.
Proof.
  intros Hr. unfold day_fare_rank, RANK.
  apply (filter_length_lt_all _ t r); [done|].
  apply Is_true_false_2. by rewrite fare_desc_irrefl, andb_false_r.
Qed.

Lemma NoDup_bounded_length (l : list nat) (m : nat) :
  NoDup l → Forall (fun b => (1 ≤ b ≤ m)%nat) l → (length l ≤ m)%nat.
Proof.
  intros Hnd Hall. rewrite <- (length_seq m 1).
  apply submseteq_length, NoDup_submseteq; [done|].
  intros b Hb. rewrite Forall_forall in Hall. apply elem_of_seq.
  specialize (Hall b Hb). lia.
Qed.

Lemma percentile_query_length (t : list row) :
  length (percentile_query t)
  = length (remove_dups
              (distance_percentile
                 <$> filter (fun x => (tr_day_fare_rank x <=? 1000)%nat) (trip_ranks t))).
Proof.
  unfold percentile_query.
  by rewrite order_by_perm, length_fmap, <- (length_fmap fst), group_by_keys.
Qed.

Lemma percentile_query_bounded (t : list row) :
  (length (percentile_query t) ≤ 100 `min` length t)%nat.
Proof.
  rewrite percentile_query_length.
  apply NoDup_bounded_length; [apply NoDup_remove_dups|].
  apply Forall_forall. intros b Hb. rewrite elem_of_remove_dups in Hb.
  apply list_elem_of_fmap in Hb as (x & -> & [_ Hx]%list_elem_of_filter).
  assert (Hin : distance_percentile x ∈ distance_percentile <$> trip_ranks t)
    by (by apply list_elem_of_fmap_2).
  rewrite trip_ranks_tiles in Hin.
  apply list_elem_of_fmap in Hin as (i & -> & Hi%elem_of_seq).
  apply NTILE_range; lia.
Qed.

(** X7. The query of [test_large_memory_processing] never returns more
    than 100 percentile groups, nor more groups than there are trips, so
    the result count that the function reports is at most 100 whether
    it succeeds or not. *)
Theorem large_memory_result_count_bounded (con : connection) (t : table) :
  (length (percentile_query t) ≤ 100 `min` length t)%nat
  ∧ ((test_large_memory_processing con).2 ≤ 100)%nat.
Proof.
  split; [apply percentile_query_bounded|].
  unfold test_large_memory_processing, fetchall.
  destruct (yellow_taxi con) as [t'|]; simpl; [|lia].
  pose proof (percentile_query_bounded t'). lia.
Qed.

Lemma NTILE_onto (T n b : nat) :
  (0 < T)%nat → (1 ≤ b ≤ T `min` n)%nat → ∃ i, (i < n)%nat ∧ NTILE T n i = b.
Proof.
  intros HT Hb.
  pose proof (bucket_end T n b HT Hb) as Hend. cbv zeta in Hend.
  destruct (ntile_shape T n) as (_ & _ & Hs & _); [lia..|]. cbv zeta in Hs.
  assert (Hsize : (1 ≤ bucket_size (n / T `min` n) (n `mod` (T `min` n)) b)%nat)
    by (unfold bucket_size; case_decide; lia).
  exists (bucket_start (n / T `min` n) (n `mod` (T `min` n)) b).
  split; [lia|]. apply NTILE_bucket; lia.
Qed.

Lemma trip_ranks_small_table (t : list row) :
  (length t ≤ 1000)%nat →
  filter (fun x => (tr_day_fare_rank x <=? 1000)%nat) (trip_ranks t) = trip_ranks t.
Proof.
  intros Hlen. apply filter_all, Forall_forall. intros x Hx.
  apply Is_true_true, Nat.leb_le.
  assert (Hin : (trip x, tr_day_fare_rank x)
                ∈ (fun x => (trip x, tr_day_fare_rank x)) <$> trip_ranks t)
    by (by apply (list_elem_of_fmap_2 (fun x => (trip x, tr_day_fare_rank x)))).
  rewrite trip_ranks_ranked in Hin.
  apply list_elem_of_fmap in Hin as (r & [= _ ->] & Hr).
  pose proof (day_fare_rank_le t r Hr). lia.
Qed.

(** X8. On a table of at most 1000 trips the rank filter of the
    larger-than-memory query removes nothing, and the query returns as
    many percentile groups as there are trips, up to 100. *)
Theorem percentile_query_small_table (t : table) :
  (length t ≤ 1000)%nat →
  length (percentile_query t) = (100 `min` length t)%nat.
Proof.
  intros Hlen. rewrite percentile_query_length, trip_ranks_small_table by done.
  rewrite trip_ranks_tiles, <- (length_seq (100 `min` length t) 1).
  apply Permutation_length, NoDup_Permutation;
    [apply NoDup_remove_dups|apply NoDup_seq|].
  intros b. rewrite elem_of_remove_dups, list_elem_of_fmap, elem_of_seq.
  split.
  - intros (i & -> & Hi%elem_of_seq).
    pose proof (NTILE_range 100 (length t) i). lia.
  - intros Hb. destruct (NTILE_onto 100 (length t) b) as (i & Hi & <-); [lia..|].
    exists i. split; [done|]. apply elem_of_seq. lia.
Qed.

Lemma percentile_query_small_table_witness :
  (length three_rows ≤ 1000)%nat ∧ length (percentile_query three_rows) = 3%nat.
Proof.
  split; [simpl; lia|].
  apply (percentile_query_small_table three_rows); simpl; lia.
Defined.

Lemma StronglySorted_lookup {A} (R : relation A) (l : list A) (i j : nat) (a b : A) :
  StronglySorted R l → l !! i = Some a → l !! j = Some b → (i < j)%nat → R a b.
Proof.
  intros Hs Hi Hj Hij. rewrite <- (take_drop j l) in Hs.
  apply (StronglySorted_app_1_elem_of _ _ _ _ _ Hs).
  - apply (list_elem_of_lookup_2 _ i). by rewrite lookup_take_lt.
  - apply (list_elem_of_lookup_2 _ 0%nat). by rewrite lookup_drop, Nat.add_0_r.
Qed.

Lemma trip_ranks_sorted (t : list row) :
  StronglySorted
    (not_after (fun a b : row => asc Qc_ltb (trip_distance a) (trip_distance b)))
    (trip <$> trip_ranks t).
Proof.
  unfold trip_ranks, percentile_tile.
  rewrite <- list_fmap_compose.
  rewrite (list_fmap_ext _ ((fun x : row * nat * option Qc => x.1.1) ∘ fst)
             (ntile_over 100 _)) by (by intros ? [[[]]]).
  rewrite (list_fmap_compose fst), ntile_over_fst.
  apply (StronglySorted_fmap (fun x : row * nat * option Qc => x.1.1)
           (not_after (fun a b : row * nat * option Qc =>
                         asc Qc_ltb (trip_distance a.1.1) (trip_distance b.1.1)))).
  - by intros a b Hab.
  - apply order_by_sorted.
    + intros x. apply (asc_Qc_irrefl (fun x : row * nat * option Qc => trip_distance x.1.1)).
    + intros x y z.
      apply (asc_Qc_trans (fun x : row * nat * option Qc => trip_distance x.1.1)).
Qed.

(** X9. The common table expression [trip_ranks] is the table with three
    columns added: it has every trip exactly once, whatever the two
    sorts do, in ascending order of the distance (NULLs last), each with
    the rank of its fare within its day; the percentile column is the
    tile of the position in that order, so that a trip with a smaller
    distance never falls into a later percentile. *)
Theorem trip_ranks_keeps_every_trip (t : table) :
  trip <$> trip_ranks t ≡ₚ t
  ∧ StronglySorted
      (not_after (fun a b : row => asc Qc_ltb (trip_distance a) (trip_distance b)))
      (trip <$> trip_ranks t)
  ∧ Forall (fun x => tr_day_fare_rank x = day_fare_rank t (trip x)) (trip_ranks t)
  ∧ distance_percentile <$> trip_ranks t
    = NTILE 100 (length t) <$> seq 0 (length t)
  ∧ ∀ x y, x ∈ trip_ranks t → y ∈ trip_ranks t →
      asc Qc_ltb (trip_distance (trip x)) (trip_distance (trip y)) = true →
      (distance_percentile x ≤ distance_percentile y)%nat.
Proof.
  split_and!.
  - rewrite (list_fmap_ext trip (fst ∘ (fun x => (trip x, tr_day_fare_rank x)))
               (trip_ranks t)) by done.
    rewrite (list_fmap_compose _ fst), trip_ranks_ranked, <- list_fmap_compose.
    by rewrite (list_fmap_ext _ id t), list_fmap_id by done.
  - apply trip_ranks_sorted.
  - apply Forall_forall. intros x Hx.
    assert (Hin : (trip x, tr_day_fare_rank x)
                  ∈ (fun x => (trip x, tr_day_fare_rank x)) <$> trip_ranks t)
      by (by apply (list_elem_of_fmap_2 (fun x => (trip x, tr_day_fare_rank x)))).
    rewrite trip_ranks_ranked in Hin.
    by apply list_elem_of_fmap in Hin as (r & [= -> ->] & Hr).
  - apply trip_ranks_tiles.
  - intros x y [i Hi]%list_elem_of_lookup [j Hj]%list_elem_of_lookup Hxy.
    assert (Htile : ∀ k z, trip_ranks t !! k = Some z →
                           distance_percentile z = NTILE 100 (length t) k).
    { intros k z Hk.
      assert (Hz : (distance_percentile <$> trip_ranks t) !! k
                   = Some (distance_percentile z))
        by (by rewrite list_lookup_fmap, Hk).
      rewrite trip_ranks_tiles, list_lookup_fmap in Hz.
      destruct (seq 0 (length t) !! k) as [k'|] eqn:Hseq; [|done].
      apply lookup_seq in Hseq as [-> _]. by injection Hz as <-. }
    rewrite (Htile i x Hi), (Htile j y Hj).
    destruct (decide (i ≤ j)%nat) as [Hij|Hij]; [by apply NTILE_mono|].
    assert (Hyx : not_after (fun a b : row => asc Qc_ltb (trip_distance a) (trip_distance b))
                    (trip y) (trip x)).
    { apply (StronglySorted_lookup _ (trip <$> trip_ranks t) j i);
        [apply trip_ranks_sorted|by rewrite list_lookup_fmap, Hj
        |by rewrite list_lookup_fmap, Hi|lia]. }
    unfold not_after in Hyx. congruence.
Qed.

(** ** [load_csv_to_duckdb] *)

(** X10. Loading is idempotent: a second load of the same file returns
    the same flag and row count and leaves the same database as the
    first.  After a successful load the count that [main] asks for again
    is the count that the load returned. *)
Theorem load_is_idempotent (fs : gmap string table) (csv_file : string)
    (con : connection) :
  load_csv_to_duckdb fs csv_file (load_csv_to_duckdb fs csv_file con).2
  = load_csv_to_duckdb fs csv_file con
  ∧ ((load_csv_to_duckdb fs csv_file con).1.1 = true →
     fetchall (load_csv_to_duckdb fs csv_file con).2 (fun t => length t)
     = Ok (load_csv_to_duckdb fs csv_file con).1.2).
Proof.
  unfold load_csv_to_duckdb, create_table_as_read_csv. simpl.
  destruct (fs !! csv_file) as [t|] eqn:Hf; simpl; rewrite ?Hf; simpl; done.
Qed.

(** ** Tables on which nothing raises *)

Lemma convert_all_total {A B} (conv : A → result B) (rows : list A) :
  (∀ r, r ∈ rows → ∃ x, conv r = Ok x) → ∃ xs, convert_all conv rows = Ok xs.
Proof.
  induction rows as [|r rows IH]; intros Hall; [by eexists|].
  destruct (Hall r) as [x Hx]; [left|].
  destruct IH as [xs Hxs]; [intros; apply Hall; by right|].
  simpl. rewrite Hx. simpl. rewrite Hxs. by eexists.
Qed.

Lemma AVG_is_Some {A} (f : A → option Qc) (l : list A) :
  l ≠ [] → Forall (fun r => is_Some (f r)) l → ∃ a, AVG (f <$> l) = Some a.
Proof.
  intros Hne Hall. destruct (AVG (f <$> l)) as [a|] eqn:Havg; [by eexists|].
  apply AVG_fmap_None in Havg. destruct l as [|r l]; [done|].
  apply Forall_cons in Hall as [[v Hv] _]. apply Forall_cons in Havg as [Hr _].
  congruence.
Qed.

Lemma SUM_is_Some {A} (f : A → option Qc) (l : list A) :
  l ≠ [] → Forall (fun r => is_Some (f r)) l → ∃ a, SUM (f <$> l) = Some a.
Proof.
  intros Hne Hall. destruct (AVG_is_Some f l Hne Hall) as [a Ha].
  unfold AVG in Ha. unfold SUM. destruct (non_null (f <$> l)); [done|by eexists].
Qed.

Lemma Forall_group {A} (P Q : A → Prop) `{∀ x, Decision (Q x)} (l : list A) :
  Forall P l → Forall P (filter Q l).
Proof.
  rewrite !Forall_forall. intros Hall x [_ Hx]%list_elem_of_filter. by apply Hall.
Qed.

Section complete.
Context (con : connection) (t : list row).
Hypothesis Htable : yellow_taxi con = Some t.
Hypothesis Hcomplete : Forall complete_trip t.

Lemma complete_column (f : row → option Qc) (P : row → Prop)
    `{∀ x, Decision (P x)} :
  (∀ r, complete_trip r → is_Some (f r)) →
  filter P t ≠ [] → ∃ a, AVG (f <$> filter P t) = Some a.
Proof.
  intros Hf Hne. apply AVG_is_Some; [done|].
  apply Forall_group. eapply Forall_impl; [exact Hcomplete|done].
Qed.

Lemma analyze_trips_by_hour_complete : ∃ d, analyze_trips_by_hour con = Ok d.
Proof.
  unfold analyze_trips_by_hour, fetchall. rewrite Htable. simpl.
  rewrite hour_data_loop.
  destruct (convert_all_total hour_entry (trips_by_hour_query t)) as [kvs ->];
    [|by eexists].
  intros row (k & Hk & ->)%elem_of_trips_by_hour_query.
  pose proof Hk as Hne. apply (group_nonempty hour_of_day) in Hne.
  apply list_elem_of_fmap in Hk as (r & -> & Hr).
  pose proof (proj1 (Forall_forall _ _) Hcomplete r Hr) as ([ts Hts] & _).
  assert (∃ h, hour_of_day r = Some h) as [h Hh]
    by (unfold hour_of_day; rewrite Hts; by eexists).
  rewrite Hh in *. unfold trips_by_hour_select. cbn [fst snd].
  destruct (complete_column trip_distance (fun r' => hour_of_day r' = Some h))
    as [d ->]; [by intros ? (_ & ? & _)|done|].
  destruct (complete_column fare_amount (fun r' => hour_of_day r' = Some h))
    as [f ->]; [by intros ? (_ & _ & ? & _)|done|].
  destruct (complete_column tip_amount (fun r' => hour_of_day r' = Some h))
    as [tp ->]; [by intros ? (_ & _ & _ & ? & _)|done|].
  simpl. by eexists.
Qed.

Lemma analyze_payment_methods_complete : ∃ d, analyze_payment_methods con = Ok d.
Proof.
  unfold analyze_payment_methods, fetchall. rewrite Htable. simpl.
  rewrite payment_loop.
  destruct (convert_all_total payment_entry (payment_methods_query t)) as [kvs ->];
    [|by eexists].
  intros row (p & Hp & ->)%elem_of_payment_methods_query.
  apply (group_nonempty payment_type) in Hp.
  unfold payment_select. simpl.
  destruct (complete_column fare_amount (fun r' => payment_type r' = p))
    as [f ->]; [by intros ? (_ & _ & ? & _)|done|].
  destruct (complete_column tip_amount (fun r' => payment_type r' = p))
    as [tp Htp]; [by intros ? (_ & _ & _ & ? & _)|done|].
  rewrite Htp. unfold AVG in Htp. unfold SUM.
  destruct (non_null (tip_amount <$> filter (fun r' => payment_type r' = p) t));
    [done|]. simpl. by eexists.
Qed.
Lemma routes_where_rounded (r : row) (digits : nat) :
  routes_where r = true →
  ∃ a b c d, rounded_route digits r = (Some a, Some b, Some c, Some d).
Proof.
  unfold routes_where, rounded_route.
  intros [[[Ha Hb]%is_true_and Hc]%is_true_and Hd]%is_true_and.
  destruct (pickup_longitude r), (pickup_latitude r), (dropoff_longitude r),
    (dropoff_latitude r); try done.
  simpl. by do 4 eexists.
Qed.

Lemma complete_AVG (f : row → option Qc) (l : list row) :
  (∀ r, complete_trip r → is_Some (f r)) → Forall complete_trip l →
  l ≠ [] → ∃ a, AVG (f <$> l) = Some a.
Proof.
  intros Hf Hall Hne. apply AVG_is_Some; [done|].
  eapply Forall_impl; [exact Hall|done].
Qed.

Lemma analyze_popular_routes_complete (limit : nat) :
  ∃ l, analyze_popular_routes con limit = Ok l.
Proof.
  unfold analyze_popular_routes, fetchall. rewrite Htable. simpl.
  rewrite routes_loop.
  destruct (convert_all_total route_entry (routes_query 2 limit t)) as [xs ->];
    [|by eexists].
  intros row Hrow. unfold routes_query in Hrow.
  apply elem_of_take in Hrow as (i & Hrow%list_elem_of_lookup_2 & _).
  rewrite order_by_perm in Hrow.
  apply list_elem_of_fmap in Hrow as ([k g] & -> & [Hk Hg]%elem_of_group_by).
  simpl in Hk, Hg.
  assert (Hne : g ≠ []) by (subst g; by apply (group_nonempty (rounded_route 2))).
  assert (Hall : Forall complete_trip g) by (subst g; by do 2 apply Forall_group).
  apply list_elem_of_fmap in Hk as (r & -> & [Hr _]%list_elem_of_filter).
  apply Is_true_true in Hr.
  destruct (routes_where_rounded r 2 Hr) as (a & b & c & d & ->).
  unfold routes_select. cbn [fst snd].
  destruct (complete_AVG trip_distance g) as [x1 ->];
    [by intros ? (_ & ? & _)|done|done|].
  destruct (complete_AVG fare_amount g) as [x2 ->];
    [by intros ? (_ & _ & ? & _)|done|done|].
  destruct (complete_AVG total_amount g) as [x3 ->];
    [by intros ? (_ & _ & _ & _ & ?)|done|done|].
  simpl. by eexists.
Qed.

Lemma complete_day_name (r : row) :
  complete_trip r →
  ∃ day h, day_name r = Some day ∧ hour_of_day r = Some h.
Proof.
  intros ([ts Hts] & _). unfold day_name, hour_of_day. rewrite Hts. simpl.
  by do 2 eexists.
Qed.

Lemma analyze_busy_days_and_times_complete :
  ∃ x, analyze_busy_days_and_times con = Ok x.
Proof.
  unfold analyze_busy_days_and_times, fetchall. rewrite Htable. simpl.
  rewrite day_loop, hour_by_day_loop.
  destruct (convert_all_total day_entry (day_query t)) as [kvs ->].
  { intros row (k & Hk & ->)%elem_of_day_query.
    pose proof Hk as Hne. apply (group_nonempty day_name) in Hne.
    apply list_elem_of_fmap in Hk as (r & -> & [_ Hr]%list_elem_of_filter).
    pose proof (proj1 (Forall_forall _ _) Hcomplete r Hr) as Hcr.
    destruct (complete_day_name r Hcr) as (day & h & Hday & _).
    rewrite Hday in *. unfold day_select. cbn [fst snd].
    set (g := filter (fun r0 => day_name r0 = Some day) (filter busy_days_where t))
      in *.
    assert (Hall : Forall complete_trip g) by (by do 2 apply Forall_group).
    destruct (complete_AVG trip_distance g) as [x1 ->];
      [by intros ? (_ & ? & _)|done|done|].
    destruct (complete_AVG fare_amount g) as [x2 ->];
      [by intros ? (_ & _ & ? & _)|done|done|].
    destruct (complete_AVG tip_amount g) as [x3 ->];
      [by intros ? (_ & _ & _ & ? & _)|done|done|].
    simpl. by eexists. }
  destruct (convert_all_total hour_by_day_entry (hour_by_day_query t)) as [xs ->].
  { intros row (k & Hk & ->)%elem_of_hour_by_day_query.
    apply list_elem_of_fmap in Hk as (r & -> & Hr).
    pose proof (proj1 (Forall_forall _ _) Hcomplete r Hr) as Hcr.
    destruct (complete_day_name r Hcr) as (day & h & Hday & Hhour).
    unfold hour_by_day_key at 1 2. rewrite Hday, Hhour. simpl. by eexists. }
  simpl. by eexists.
Qed.
End complete.

(** X11. On a table in which every trip has a pick-up time, a distance,
    a fare, a tip and a total, none of the four analyses raises, whatever
    the other columns hold, and the analytics block of [main] stores
    their results as they are: no result is replaced by an empty one. *)
Theorem complete_table_never_fails (con : connection) (t : table) :
  yellow_taxi con = Some t → Forall complete_trip t →
  ∃ hourly routes payment days,
    analyze_trips_by_hour con = Ok hourly
    ∧ analyze_popular_routes con 10 = Ok routes
    ∧ analyze_payment_methods con = Ok payment
    ∧ analyze_busy_days_and_times con = Ok days
    ∧ main_analytics con
      = Ok {| hourly_stats := hourly; popular_routes := routes;
              payment_stats := payment; day_stats := days.1;
              hourly_day_stats := days.2 |}.
Proof.
  intros Ht Hall.
  destruct (analyze_trips_by_hour_complete con t Ht Hall) as [hourly Hh].
  destruct (analyze_popular_routes_complete con t Ht Hall 10) as [routes Hr].
  destruct (analyze_payment_methods_complete con t Ht Hall) as [payment Hp].
  destruct (analyze_busy_days_and_times_complete con t Ht Hall) as [days Hd].
  exists hourly, routes, payment, days. split_and!; try done.
  unfold main_analytics. by rewrite Hh, Hr, Hp, Hd.
Qed.

Lemma complete_table_never_fails_witness :
  yellow_taxi (connect (Some complete_trips)) = Some complete_trips
  ∧ Forall complete_trip complete_trips
  ∧ ∃ res, main_analytics (connect (Some complete_trips)) = Ok res
           ∧ length (popular_routes res) = 1%nat.
Proof.
  assert (Hall : Forall complete_trip complete_trips)
    by (repeat constructor; by eexists).
  split; [reflexivity|]. split; [exact Hall|].
  destruct (complete_table_never_fails (connect (Some complete_trips)) complete_trips
              eq_refl Hall) as (hourly & routes & payment & days & _ & Hr & _ & _ & ->).
  eexists. split; [reflexivity|]. simpl.
  assert (Hlen : length <$> analyze_popular_routes (connect (Some complete_trips)) 10
                 = Ok 1%nat) by (vm_compute; reflexivity).
  rewrite Hr in Hlen. by injection Hlen.
Defined.

(** ** The callers *)

(** X12. The CASE that orders the days has no ELSE, and needs none:
    every day name that [DAYNAME] returns has a rank from 1 to 7, so no
    day of a trip with a pick-up time sorts as NULL. *)
Theorem day_order_key_defined (ts : Z) :
  ∃ n, day_rank (DAYNAME (Some ts)) = Some n ∧ 1 ≤ n ≤ 7.
Proof.
  unfold DAYNAME. cbn [fmap option_fmap option_map]. unfold weekday_name.
  match goal with |- context [?d mod 7] =>
    pose proof (Z.mod_pos_bound d 7 ltac:(lia)) as Hm;
    destruct (d mod 7) as [|[[[]|[]|]|[[]|[]|]|]|] eqn:Hd
  end; try lia; simpl; eexists; (split; [reflexivity|lia]).
Qed.

(** X13. [run_analytics] guards nothing.  It returns exactly when the
    four analyses succeed and the report file can be written, and then
    it holds their results as they are, with the result of the
    larger-than-memory test; otherwise it raises the exception of the
    first analysis that fails, or that of the report file. *)
Theorem run_analytics_is_unguarded (con : connection) (writable : bool) :
  match run_analytics con writable with
  | Ok r =>
      analyze_trips_by_hour con = Ok (hourly_stats (results r))
      ∧ analyze_popular_routes con 10 = Ok (popular_routes (results r))
      ∧ analyze_payment_methods con = Ok (payment_stats (results r))
      ∧ analyze_busy_days_and_times con
        = Ok (day_stats (results r), hourly_day_stats (results r))
      ∧ main_analytics con = Ok (results r)
      ∧ large_memory_test r = test_large_memory_processing con
      ∧ writable = true
  | Raise e =>
      analyze_trips_by_hour con = Raise e
      ∨ (succeeds (analyze_trips_by_hour con)
         ∧ (analyze_popular_routes con 10 = Raise e
            ∨ (succeeds (analyze_popular_routes con 10)
               ∧ (analyze_payment_methods con = Raise e
                  ∨ (succeeds (analyze_payment_methods con)
                     ∧ (analyze_busy_days_and_times con = Raise e
                        ∨ (succeeds (analyze_busy_days_and_times con)
                           ∧ writable = false ∧ e = IOException)))))))
  end.
Proof.
  unfold run_analytics, main_analytics, succeeds.
  destruct (analyze_trips_by_hour con) as [hourly|e1]; simpl; [|by left].
  destruct (analyze_popular_routes con 10) as [routes|e2]; simpl;
    [|right; split; [by eexists|by left]].
  destruct (analyze_payment_methods con) as [payment|e3]; simpl;
    [|right; split; [by eexists|]; right; split; [by eexists|by left]].
  destruct (analyze_busy_days_and_times con) as [[days hours]|e4]; simpl;
    [|right; split; [by eexists|]; right; split; [by eexists|];
      right; split; [by eexists|by left]].
  destruct writable; simpl; [done|].
  right; split; [by eexists|]. right; split; [by eexists|].
  right; split; [by eexists|]. right. split; [by eexists|done].
Qed.

(** X14. A report that [main] writes is the analysis of the rows of the
    file it was given, loaded in this very run: the file exists and can
    be read, no call outside the [try] block raised, the answer at the
    prompt was yes, and the table that the report was computed from
    holds exactly the rows of the file, never what an earlier run left
    in the database. *)
Theorem main_report_is_of_the_loaded_file (sys : platform)
    (environ : gmap string string) (files : gset string) (fs : gmap string table)
    (answer : string) (reports_writable : bool) (db : connection)
    (csv_file : option string) (res : analytics_results) :
  report (main sys environ files fs answer reports_writable db csv_file) = Some res →
  ∃ path t,
    csv_file = Some path ∧ path ∈ files ∧ fs !! path = Some t
    ∧ answered_yes answer = true ∧ reports_writable = true
    ∧ yellow_taxi
        (database (main sys environ files fs answer reports_writable db csv_file))
      = Some t
    ∧ main_analytics
        (database (main sys environ files fs answer reports_writable db csv_file))
      = Ok res
    ∧ uncaught (main sys environ files fs answer reports_writable db csv_file) = None.
Proof.
  unfold main, unless_raised.
  destruct (os_makedirs sys "db"); [done|].
  destruct (os_makedirs sys _); [done|].
  destruct csv_file as [path|]; [|done].
  destruct (bool_decide (path ∈ files)) eqn:Hfile; simpl; [|done].
  apply bool_decide_eq_true in Hfile.
  destruct (duckdb_connect sys); [done|].
  destruct (execute_set sys "temp_directory" _); [done|].
  destruct (execute_set sys "memory_limit" _); [done|].
  unfold load_csv_to_duckdb, create_table_as_read_csv. simpl.
  destruct (fs !! path) as [t|] eqn:Hfs; simpl; [|done].
  destruct (answered_yes answer); [|done].
  match goal with |- context [main_analytics ?c] =>
    destruct (main_analytics c) as [res'|] eqn:Hres; [|done] end.
  destruct reports_writable; simpl; [|done].
  intros [= <-]. exists path, t. by rewrite Hres.
Qed.

Lemma main_report_is_of_the_loaded_file_witness :
  ∃ res,
    report (main quiet ∅ {["trips.csv"]} {["trips.csv" := complete_trips]} "Y" true
              (connect (Some three_rows)) (Some "trips.csv")) = Some res
    ∧ yellow_taxi
        (database (main quiet ∅ {["trips.csv"]} {["trips.csv" := complete_trips]}
                     "Y" true (connect (Some three_rows)) (Some "trips.csv")))
      = Some complete_trips.
Proof.
  assert (∃ res, report (main quiet ∅ {["trips.csv"]}
                           {["trips.csv" := complete_trips]}
                           "Y" true (connect (Some three_rows)) (Some "trips.csv"))
                 = Some res) as [res Hres]
    by (eexists; vm_compute; reflexivity).
  exists res. split; [exact Hres|].
  destruct (main_report_is_of_the_loaded_file _ _ _ _ _ _ _ _ _ Hres)
    as (path & t & [= <-] & _ & Hfs & _ & _ & -> & _).
  rewrite <- Hfs. reflexivity.
Defined.

(** X15. When no call outside the [try] block raises, [main] leaves in
    the database the rows of the file it was given, or no table when the
    file exists and cannot be read, with the limits taken from the
    environment or their defaults, whatever is answered at the prompt
    and whatever the analyses do; without a file name, or with the name
    of a file that does not exist, it leaves the database as it found
    it.  When one of these calls raises ([os.makedirs] of an empty
    DUCKDB_TEMP_DIRECTORY, [SET] of an invalid DUCKDB_MEMORY_LIMIT),
    [main] lets the exception through, nothing is loaded and no report
    is written: the table is the one that was there. *)
Theorem main_database_effect (sys : platform) (environ : gmap string string)
    (files : gset string) (fs : gmap string table) (answer : string)
    (reports_writable : bool) (db : connection) (csv_file : option string) :
  let temp_dir := environ_get environ "DUCKDB_TEMP_DIRECTORY" "db/temp" in
  let limit := environ_get environ "DUCKDB_MEMORY_LIMIT" "400MB" in
  let out := main sys environ files fs answer reports_writable db csv_file in
  match uncaught out with
  | Some e =>
      yellow_taxi (database out) = yellow_taxi db
      ∧ memory_limit (database out) = memory_limit db
      ∧ report out = None
      ∧ (os_makedirs sys "db" = Some e
         ∨ os_makedirs sys temp_dir = Some e
         ∨ ∃ path, csv_file = Some path ∧ path ∈ files
             ∧ (duckdb_connect sys = Some e
                ∨ execute_set sys "temp_directory" temp_dir = Some e
                ∨ execute_set sys "memory_limit" limit = Some e))
  | None =>
      os_makedirs sys "db" = None ∧ os_makedirs sys temp_dir = None
      ∧ match csv_file with
        | Some path =>
            if bool_decide (path ∈ files)
            then duckdb_connect sys = None
                 ∧ execute_set sys "temp_directory" temp_dir = None
                 ∧ execute_set sys "memory_limit" limit = None
                 ∧ database out
                   = {| yellow_taxi := fs !! path;
                        memory_limit := limit;
                        temp_directory := temp_dir |}
            else database out = db
        | None => database out = db
        end
  end.
Proof.
  intros temp_dir limit out. unfold out, main, unless_raised.
  fold temp_dir limit.
  destruct (os_makedirs sys "db") as [e|]; simpl; [by eauto 10|].
  destruct (os_makedirs sys temp_dir) as [e|]; simpl; [by eauto 10|].
  destruct csv_file as [path|]; [|done].
  destruct (bool_decide (path ∈ files)) eqn:Hfile; simpl; [|done].
  apply bool_decide_eq_true in Hfile.
  destruct (duckdb_connect sys) as [e|]; simpl;
    [split_and!; try done; do 2 right; exists path; auto|].
  destruct (execute_set sys "temp_directory" temp_dir) as [e|]; simpl;
    [split_and!; try done; do 2 right; exists path; auto|].
  destruct (execute_set sys "memory_limit" limit) as [e|]; simpl;
    [split_and!; try done; do 2 right; exists path; auto|].
  unfold load_csv_to_duckdb, create_table_as_read_csv. simpl.
  destruct (fs !! path) as [t|]; simpl; [|done].
  destruct (answered_yes answer); [|done].
  match goal with |- context [main_analytics ?c] =>
    destruct (main_analytics c); [|done] end.
  by destruct reports_writable.
Qed.

(** ** Worked instances *)

Lemma hour_data_holds_group_statistics_witness :
  ∃ d e, analyze_trips_by_hour (connect (Some complete_trips)) = Ok d
         ∧ d !! 8 = Some e ∧ HourStats.trip_count e = 1%nat.
Proof.
  assert (∃ d, analyze_trips_by_hour (connect (Some complete_trips)) = Ok d)
    as [d Hd] by (eexists; vm_compute; reflexivity).
  pose proof (hour_data_holds_group_statistics (connect (Some complete_trips))
                complete_trips d eq_refl Hd 8) as H.
  cbv zeta in H. destruct (d !! 8) as [e|] eqn:E.
  - exists d, e. destruct H as (_ & _ & -> & _). split; [exact Hd|]. split; [exact E | reflexivity].
  - discriminate H.
Defined.

Lemma payment_data_holds_group_statistics_witness :
  ∃ d e, analyze_payment_methods (connect (Some complete_trips)) = Ok d
         ∧ d !! py_str (Some 1) = Some e
         ∧ PaymentStats.description e = "Credit card"%string.
Proof.
  assert (∃ d, analyze_payment_methods (connect (Some complete_trips)) = Ok d)
    as [d Hd] by (eexists; vm_compute; reflexivity).
  pose proof (payment_data_holds_group_statistics (connect (Some complete_trips))
                complete_trips d eq_refl Hd (Some 1)) as H.
  cbv zeta in H. destruct (d !! py_str (Some 1)) as [e|] eqn:E.
  - exists d, e. destruct H as (_ & -> & _). split; [exact Hd|]. split; [exact E | reflexivity].
  - discriminate H.
Defined.


Lemma day_data_holds_group_statistics_witness :
  ∃ days hours e,
    analyze_busy_days_and_times (connect (Some complete_trips)) = Ok (days, hours)
    ∧ days !! "Tuesday"%string = Some e ∧ DayStats.trip_count e = 1%nat.
Proof.
  assert (∃ x, analyze_busy_days_and_times (connect (Some complete_trips)) = Ok x)
    as [[days hours] Hx] by (eexists; vm_compute; reflexivity).
  pose proof (day_data_holds_group_statistics (connect (Some complete_trips))
                complete_trips days hours eq_refl Hx "Tuesday") as H.
  cbv zeta in H. destruct (days !! "Tuesday"%string) as [e|] eqn:E.
  - exists days, hours, e. destruct H as (_ & -> & _).
    split; [exact Hx|]. split; [exact E | reflexivity].
  - discriminate H.
Defined.

Lemma heat_map_cell_counts_trips_witness :
  ∃ days hours,
    analyze_busy_days_and_times (connect (Some complete_trips)) = Ok (days, hours)
    ∧ heat_map_cell hours "Tuesday" 8 = 1%nat.
Proof.
  assert (∃ x, analyze_busy_days_and_times (connect (Some complete_trips)) = Ok x)
    as [[days hours] Hx] by (eexists; vm_compute; reflexivity).
  exists days, hours. split; [exact Hx|].
  rewrite (heat_map_cell_counts_trips (connect (Some complete_trips)) complete_trips
             days hours "Tuesday" 8 eq_refl Hx).
  reflexivity.
Defined.
